(** * Trams in Zurich: the analysis helpers of [func_definitions.py]

    A shallow embedding of the functions of [func_definitions.py] (and of the
    older, global-table variant [func_defs.py]) together with the properties
    the specification states about them.

    Conventions of the embedding.
    - A pandas dataframe is the list of its rows, in table order.
    - Python [str] values are [string]s holding the UTF-8 bytes of the text;
      equality and substring search on the bytes agree with those on the code
      points.
    - Seconds (holdups, delays and their means) are exact rationals [Q];
      a missing cell (pandas NaN) is [None].
    - A Python call either returns a value, raises an exception, or is still
      running when the iteration budget [fuel] of its [while] loop is used up
      ([Timeout]).  A call that yields [Timeout] for every budget never
      returns. *)

From Stdlib Require Import List String Ascii Bool Arith NArith ZArith QArith.
From Stdlib Require Import Qabs Qround Lia Lqa Permutation Sorted.
Import ListNotations.

Local Open Scope nat_scope.
Local Open Scope string_scope.
Local Open Scope list_scope.

(* ------------------------------------------------------------------ *)
(** ** Python values: exceptions and outcomes *)

Inductive exn : Type :=
| KeyError (key : string)   (* a label missing from an index *)
| IndexError                (* list index out of range *)
| ValueError                (* reindexing on an axis with duplicate labels *)
| ZeroDivisionError.        (* int / int with a zero divisor *)

Inductive outcome (A : Type) : Type :=
| Returned (a : A)
| Raised (e : exn)
| Timeout.

Arguments Returned {A} a.
Arguments Raised {A} e.
Arguments Timeout {A}.

Definition bind {A B : Type} (c : outcome A) (k : A -> outcome B) : outcome B :=
  match c with
  | Returned a => k a
  | Raised e => Raised e
  | Timeout => Timeout
  end.

Notation "x <- c ;; k" := (bind c (fun x => k))
  (at level 61, c at next level, right associativity).

(** [f] never returns: whatever the budget, the loop is still running. *)
Definition diverges {A : Type} (f : nat -> outcome A) : Prop :=
  forall fuel, f fuel = Timeout.

(** [l[i]] for a non-negative literal index. *)
Definition getitem {A : Type} (l : list A) (i : nat) : outcome A :=
  match nth_error l i with
  | Some a => Returned a
  | None => Raised IndexError
  end.

(** [l[-k]] for a positive [k]. *)
Definition getitem_neg {A : Type} (l : list A) (k : nat) : outcome A :=
  if (k =? 0)%nat || (List.length l <? k)%nat then Raised IndexError
  else getitem l (List.length l - k).

(* ------------------------------------------------------------------ *)
(** ** Strings *)

Fixpoint bytes (s : string) : list N :=
  match s with
  | EmptyString => []
  | String c t => N_of_ascii c :: bytes t
  end.

(** Width in bytes of the whitespace character at the head of a UTF-8 text
    (0 when the text does not start with whitespace).  The whitespace
    characters are those of [str.isspace]: U+0009..U+000D, U+001C..U+0020,
    U+0085, U+00A0, U+1680, U+2000..U+200A, U+2028, U+2029, U+202F, U+205F
    and U+3000. *)
Definition ws_width (l : list N) : nat :=
  match l with
  | [] => 0
  | b :: r =>
    if ((9 <=? b) && (b <=? 13) || (28 <=? b) && (b <=? 32))%N then 1
    else match r with
         | [] => 0
         | b1 :: r1 =>
           if ((b =? 194) && ((b1 =? 133) || (b1 =? 160)))%N then 2
           else match r1 with
                | [] => 0
                | b2 :: _ =>
                  if ((b =? 225) && (b1 =? 154) && (b2 =? 128)
                      || (b =? 226) && (b1 =? 128)
                         && ((128 <=? b2) && (b2 <=? 138)
                             || (b2 =? 168) || (b2 =? 169) || (b2 =? 175))
                      || (b =? 226) && (b1 =? 129) && (b2 =? 159)
                      || (b =? 227) && (b1 =? 128) && (b2 =? 128))%N
                  then 3 else 0
                end
         end
  end.

Definition emit (cur : string) (rest : list string) : list string :=
  match cur with
  | EmptyString => rest
  | _ => cur :: rest
  end.

(** The scanner behind [str.split()]: [cur] is the token being read and
    [skip] counts the bytes still to drop of a multi-byte whitespace
    character. *)
Fixpoint split_ws (skip : nat) (cur : string) (s : string) : list string :=
  match s with
  | EmptyString => emit cur []
  | String c t =>
    match skip with
    | S k => split_ws k cur t
    | O =>
      match ws_width (bytes s) with
      | O => split_ws 0 (cur ++ String c EmptyString) t
      | S k => emit cur (split_ws k EmptyString t)
      end
    end
  end.

(** [s.split()]: the maximal runs of non-whitespace characters. *)
Definition split (s : string) : list string := split_ws 0 EmptyString s.

(* ------------------------------------------------------------------ *)
(** ** The observation table *)

Record row : Type := mkRow {
  linie : Z;
  fw_lang : string;
  halt_kurz : string;
  halt_lang : string;
  halt_kurz_von1 : string;
  halt_kurz_nach1 : string;
  holdup_stop : Q;
  holdup_trajectory : Q;
  total_holdup : Q;
  delay_after_trajectory : Q
}.

Definition dataframe : Type := list row.

(** [df.drop_duplicates(subset=key, keep="last")]: a row is dropped when a
    later row carries the same key. *)
Fixpoint drop_duplicates_last {A : Type} (key : A -> string) (df : list A) : list A :=
  match df with
  | [] => []
  | r :: rest =>
    if existsb (fun r' => key r' =? key r) rest
    then drop_duplicates_last key rest
    else r :: drop_duplicates_last key rest
  end.

(** [df.loc[k][0]] on a one-column table indexed by unique labels. *)
Definition loc (df : list (string * string)) (k : string) : outcome string :=
  match find (fun p => fst p =? k) df with
  | Some p => Returned (snd p)
  | None => Raised (KeyError k)
  end.

(** The same lookup as a partial function on stops. *)
Definition table_succ (df : list (string * string)) (s : string) : option string :=
  option_map snd (find (fun p => fst p =? s) df).

(* ------------------------------------------------------------------ *)
(** ** [stops_on_route] *)

(** The [while current_stop != last_stop] loop. *)
Fixpoint stops_loop (fuel : nat) (df : list (string * string)) (last_stop : string)
         (stops : list string) (current_stop : string) : outcome (list string) :=
  if current_stop =? last_stop then Returned stops
  else match fuel with
       | O => Timeout
       | S fuel' =>
         let stops := stops ++ [current_stop] in
         next <- loc df current_stop ;;
         stops_loop fuel' df last_stop stops next
       end.

(** The successor table of a route: origin and destination columns of the
    route's rows, last occurrence per origin kept. *)
Definition successor_table (route : string) (data : dataframe) : list (string * string) :=
  let df := filter (fun r => fw_lang r =? route) data in
  let df := map (fun r => (halt_kurz_von1 r, halt_kurz_nach1 r)) df in
  drop_duplicates_last fst df.

Definition stops_on_route (fuel : nat) (route : string) (data : dataframe)
  : outcome (list string) :=
  first_stop <- getitem (split route) 0 ;;
  last_stop <- getitem (split route) 2 ;;
  let df := successor_table route data in
  stops_loop fuel df last_stop [] first_stop.

(** The last-write-wins successor of a stop, in the specification's words:
    the destination of the last row, in table order, among the route's
    observations that leave from the stop. *)
Definition successor (route : string) (data : dataframe) (s : string) : option string :=
  match rev (filter (fun r => (fw_lang r =? route) && (halt_kurz_von1 r =? s)) data) with
  | r :: _ => Some (halt_kurz_nach1 r)
  | [] => None
  end.

(** The [n]-th successor of a stop. *)
Fixpoint walk (succ : string -> option string) (n : nat) (s : string) : option string :=
  match n with
  | O => Some s
  | S k => match succ s with
           | Some t => walk succ k t
           | None => None
           end
  end.

(** [linked succ last cur p]: [p] lists the stops met from [cur] on, each
    followed by its successor, up to but excluding [last]. *)
Inductive linked (succ : string -> option string) (last : string)
  : string -> list string -> Prop :=
| linked_done : linked succ last last []
| linked_step cur next p :
    cur <> last -> succ cur = Some next -> linked succ last next p ->
    linked succ last cur (cur :: p).

(** What the specification asks of the sequence [l] returned for a route
    from [A] to [B]: it starts with [A], never contains [B], and every
    element but the last is followed by its successor. *)
Definition route_sequence (route : string) (data : dataframe) (A B : string)
           (l : list string) : Prop :=
  hd_error l = Some A /\
  ~ In B l /\
  forall i s, nth_error l i = Some s -> S i < List.length l ->
              successor route data s = nth_error l (S i).

(** The chain of successors from [cur] never meets the last stop. *)
Definition endless (succ : string -> option string) (last cur : string) : Prop :=
  forall k, exists t, walk succ k cur = Some t /\ t <> last.

(* ------------------------------------------------------------------ *)
(** ** [main_routes_of_line] *)

(** The distinct values of a column, in order of first appearance. *)
Fixpoint unique (l : list string) : list string :=
  match l with
  | [] => []
  | x :: t => x :: filter (fun y => negb (y =? x)) (unique t)
  end.

Definition count (v : string) (l : list string) : nat :=
  List.length (filter (fun y => y =? v) l).

(** Stable insertion by descending count. *)
Fixpoint insert_by_count (p : string * nat) (l : list (string * nat)) : list (string * nat) :=
  match l with
  | [] => [p]
  | q :: t =>
    if (snd q <? snd p)%nat then p :: q :: t else q :: insert_by_count p t
  end.

(** [column.value_counts()]: each distinct value with its number of rows,
    most frequent first; equal counts stay in order of first appearance
    (pandas leaves the order of ties to the sorting routine). *)
Definition value_counts (l : list string) : list (string * nat) :=
  fold_right insert_by_count [] (map (fun v => (v, count v l)) (unique l)).

Definition main_routes_of_line (line : Z) (data : dataframe) : list string :=
  let df := filter (fun r => (linie r =? line)%Z) data in
  map fst (firstn 2 (value_counts (map fw_lang df))).

(* ------------------------------------------------------------------ *)
(** ** [convert_short_to_long] *)

(** [s.replace(pat, repl)] for a non-empty [pat]: every occurrence met in a
    left-to-right scan is replaced, and the scan resumes after it; [skip]
    counts the bytes of the current occurrence still to drop. *)
Fixpoint replace_from (pat repl : string) (skip : nat) (s : string) : string :=
  match s with
  | EmptyString => EmptyString
  | String c t =>
    match skip with
    | S k => replace_from pat repl k t
    | O =>
      if prefix pat s
      then repl ++ replace_from pat repl (String.length pat - 1) t
      else String c (replace_from pat repl 0 t)
    end
  end.

Definition str_replace (pat repl s : string) : string := replace_from pat repl 0 s.

(** The two city prefixes, as UTF-8 text. *)
Definition zurich_comma_space : string := "Zürich, ".
Definition zurich_comma : string := "Zürich,".

Definition strip_city (halt_lang : string) : string :=
  str_replace zurich_comma "" (str_replace zurich_comma_space "" halt_lang).

(** [series.drop_duplicates()]: a row is dropped when an earlier row holds
    the same value (the index labels play no part). *)
Fixpoint drop_duplicates_values (seen : list string) (s : list (string * string))
  : list (string * string) :=
  match s with
  | [] => []
  | p :: t =>
    if existsb (fun v => v =? snd p) seen
    then drop_duplicates_values seen t
    else p :: drop_duplicates_values (snd p :: seen) t
  end.

(** What [series.loc[label]] gives: the value when the label occurs once, the
    sub-series of its rows when it occurs several times. *)
Inductive loc_result : Type :=
| Scalar (v : string)
| Series (vs : list string).

Definition series_loc (s : list (string * string)) (label : string) : outcome loc_result :=
  match filter (fun p => fst p =? label) s with
  | [] => Raised (KeyError label)
  | [p] => Returned (Scalar (snd p))
  | ps => Returned (Series (map snd ps))
  end.

Definition convert_short_to_long (name : string) (data : dataframe) : outcome loc_result :=
  let stops := map (fun r => (halt_lang r, halt_kurz r)) data in
  let stops := map (fun p => (snd p, fst p)) stops in
  let stops := map (fun p => (fst p, strip_city (snd p))) stops in
  let stops := drop_duplicates_values [] stops in
  series_loc stops name.

(* ------------------------------------------------------------------ *)
(** ** [contributions] *)

Definition Qsum (l : list Q) : Q := fold_right Qplus 0%Q l.

(** The arithmetic mean of a non-empty column. *)
Definition mean (l : list Q) : Q := (Qsum l / inject_Z (Z.of_nat (List.length l)))%Q.

(** A row of the contributions table: long name and the three mean holdups;
    every cell is missing on a row that reindexing inserted. *)
Record cont_row : Type := mkCont {
  c_halt_lang : option string;
  c_holdup_stop : option Q;
  c_holdup_trajectory : option Q;
  c_total_holdup : option Q
}.

Definition null_row : cont_row := mkCont None None None None.

Definition group_key : Type := (string * string)%type.

Definition key_eqb (a b : group_key) : bool :=
  (fst a =? fst b) && (snd a =? snd b).

(** Lexicographic order of the group keys, strings by code point. *)
Definition key_leb (a b : group_key) : bool :=
  match String.compare (fst a) (fst b) with
  | Lt => true
  | Gt => false
  | Eq => String.leb (snd a) (snd b)
  end.

Fixpoint unique_keys (l : list group_key) : list group_key :=
  match l with
  | [] => []
  | x :: t => x :: filter (fun y => negb (key_eqb y x)) (unique_keys t)
  end.

Fixpoint insert_key (k : group_key) (l : list group_key) : list group_key :=
  match l with
  | [] => [k]
  | q :: t => if key_leb k q then k :: q :: t else q :: insert_key k t
  end.

Definition sort_keys (l : list group_key) : list group_key :=
  fold_right insert_key [] l.

Definition row_key (r : row) : group_key := (halt_kurz_von1 r, halt_lang r).

(** The keys of the groups: the distinct pairs of origin stop and long
    name, sorted. *)
Definition group_keys (df : list row) : list group_key :=
  sort_keys (unique_keys (map row_key df)).

(** [df.groupby(["halt_kurz_von1","halt_lang"]).mean()] followed by
    [reset_index] and [set_index("halt_kurz_von1")]: one row per group, in
    key order, labelled by the origin stop. *)
Definition grouped_means (df : list row) : list (string * cont_row) :=
  map (fun k =>
         let g := filter (fun r => key_eqb (row_key r) k) df in
         (fst k, mkCont (Some (snd k))
                        (Some (mean (map holdup_stop g)))
                        (Some (mean (map holdup_trajectory g)))
                        (Some (mean (map total_holdup g)))))
      (group_keys df).

Fixpoint has_duplicates (l : list string) : bool :=
  match l with
  | [] => false
  | x :: t => existsb (fun y => y =? x) t || has_duplicates t
  end.

Fixpoint list_eqb (a b : list string) : bool :=
  match a, b with
  | [], [] => true
  | x :: a', y :: b' => (x =? y) && list_eqb a' b'
  | _, _ => false
  end.

Definition lookup_row (conts : list (string * cont_row)) (s : string) : cont_row :=
  match find (fun p => fst p =? s) conts with
  | Some p => snd p
  | None => null_row
  end.

(** [conts.reindex(target)]: the table is handed back when its index already
    equals the target; otherwise duplicate labels are refused (unless nothing
    is asked for), and each target label gets its row, or a row of missing
    cells. *)
Definition reindex (conts : list (string * cont_row)) (target : list string)
  : outcome (list (string * cont_row)) :=
  if list_eqb (map fst conts) target then Returned conts
  else if has_duplicates (map fst conts) && negb (List.length target =? 0)%nat
       then Raised ValueError
       else Returned (map (fun s => (s, lookup_row conts s)) target).

Definition contributions (fuel : nat) (route : string) (data : dataframe)
  : outcome (list (string * cont_row)) :=
  let df := filter (fun r => fw_lang r =? route) data in
  let conts := grouped_means df in
  stops_in_order <- stops_on_route fuel route data ;;
  reindex conts stops_in_order.

Definition number_of_stops (fuel : nat) (route : string) (data : dataframe) : outcome nat :=
  conts <- contributions fuel route data ;;
  Returned (List.length conts).

(* ------------------------------------------------------------------ *)
(** ** [delay_along_route] *)

(** The numeric columns left after [drop("halt_lang", axis=1)], by position. *)
Definition column (idx : nat) (r : cont_row) : option Q :=
  match idx with
  | 0 => c_holdup_stop r
  | 1 => c_holdup_trajectory r
  | _ => c_total_holdup r
  end.

Definition abs_cell (c : option Q) : option Q := option_map Qabs c.

(** [column.sum()]: missing cells are skipped. *)
Definition sum_cells (l : list (option Q)) : Q :=
  fold_right (fun c acc => match c with Some q => (q + acc)%Q | None => acc end) 0%Q l.

Definition holdup_index (which_holdup : string) : nat :=
  if which_holdup =? "at_stop" then 0
  else if which_holdup =? "on_trajectory" then 1
  else 2.

Definition delay_along_route (fuel : nat) (route : string) (data : dataframe)
           (which_holdup : string) (absolute : bool) : outcome Q :=
  let idx := holdup_index which_holdup in
  conts <- contributions fuel route data ;;
  let cells := map (fun p => column idx (snd p)) conts in
  let cells := if absolute then map abs_cell cells else cells in
  Returned (sum_cells cells).

(* ------------------------------------------------------------------ *)
(** ** [measure_of_delay_line] *)

(** A numpy float: a number, an infinity, or not-a-number. *)
Inductive float : Type :=
| Fin (q : Q)
| PosInf
| NegInf
| NaN.

Definition fadd (a b : float) : float :=
  match a, b with
  | NaN, _ | _, NaN => NaN
  | Fin x, Fin y => Fin (x + y)
  | PosInf, NegInf | NegInf, PosInf => NaN
  | PosInf, _ | _, PosInf => PosInf
  | NegInf, _ | _, NegInf => NegInf
  end.

(** Division of a numpy float by a Python int counting something: dividing by
    zero gives an infinity or not-a-number, and no exception. *)
Definition fdiv (a : float) (n : nat) : float :=
  match n with
  | O => match a with
         | Fin x => match (x ?= 0)%Q with
                    | Eq => NaN
                    | Gt => PosInf
                    | Lt => NegInf
                    end
         | _ => a
         end
  | S _ => match a with
           | Fin x => Fin (x / inject_Z (Z.of_nat n))
           | _ => a
           end
  end.

(** [sum(measures)]. *)
Definition py_sum (l : list float) : float := fold_left fadd l (Fin 0).

(** Equality of floats up to the representation of the rational. *)
Definition float_eq (a b : float) : Prop :=
  match a, b with
  | Fin x, Fin y => (x == y)%Q
  | PosInf, PosInf | NegInf, NegInf | NaN, NaN => True
  | _, _ => False
  end.

(** What the body of a [for] loop does next: go on with the next item, or
    leave the function with a value. *)
Inductive flow (S R : Type) : Type :=
| Continue (s : S)
| Return (r : R).

Arguments Continue {S R} s.
Arguments Return {S R} r.

(** [for x in xs: body]; falling off the end of the function returns
    [None]. *)
Fixpoint for_each {X S R : Type} (body : X -> S -> outcome (flow S R))
         (xs : list X) (s : S) : outcome (option R) :=
  match xs with
  | [] => Returned None
  | x :: rest =>
    f <- body x s ;;
    match f with
    | Continue s' => for_each body rest s'
    | Return r => Returned (Some r)
    end
  end.

Definition measure_body (fuel : nat) (data : dataframe) (which_holdup : string)
           (absolute per_stop : bool) (route : string) (measures : list float)
  : outcome (flow (list float) float) :=
  num <- delay_along_route fuel route data which_holdup absolute ;;
  den <- number_of_stops fuel route data ;;
  let measures :=
      if per_stop then measures ++ [fdiv (Fin num) den] else measures ++ [Fin num] in
  Returned (Return (fdiv (py_sum measures) (List.length measures))).

Definition measure_of_delay_line (fuel : nat) (line : Z) (data : dataframe)
           (which_holdup : string) (absolute per_stop : bool) : outcome (option float) :=
  for_each (measure_body fuel data which_holdup absolute per_stop)
           (main_routes_of_line line data) [].

(* ------------------------------------------------------------------ *)
(** ** [freq_major_delays_route] *)

Definition Qltb (a b : Q) : bool := negb (Qle_bool b a).

(** Round to the nearest integer, ties to the even one. *)
Definition round_half_even (x : Q) : Z :=
  let f := Qfloor x in
  match ((x - inject_Z f) ?= (1 # 2))%Q with
  | Lt => f
  | Gt => (f + 1)%Z
  | Eq => if Z.even f then f else (f + 1)%Z
  end.

(** [round(x, 2)]. *)
Definition py_round2 (x : Q) : Q := (inject_Z (round_half_even (x * 100)) / 100)%Q.

(** [a / b] on Python ints. *)
Definition py_div (a b : nat) : outcome Q :=
  match b with
  | O => Raised ZeroDivisionError
  | S _ => Returned (inject_Z (Z.of_nat a) / inject_Z (Z.of_nat b))%Q
  end.

Definition is_major (what : string) (threshold : Q) (r : row) : bool :=
  if what =? "deviation"
  then Qltb threshold (delay_after_trajectory r)
       || Qltb (delay_after_trajectory r) (- threshold)
  else Qltb threshold (delay_after_trajectory r).

Definition freq_major_delays_route (fuel : nat) (route : string) (data : dataframe)
           (cutoff : Q) (per_stop : bool) (what : string) : outcome (nat * nat * Q) :=
  let df := filter (fun r => fw_lang r =? route) data in
  stops_on_this_route <- stops_on_route fuel route data ;;
  let length_of_route := List.length stops_on_this_route in
  penultimate_stop <- getitem_neg stops_on_this_route 2 ;;
  let df := filter (fun r => halt_kurz r =? penultimate_stop) df in
  let threshold :=
      if per_stop then (cutoff * inject_Z (Z.of_nat length_of_route))%Q else cutoff in
  let number_observations := List.length df in
  let df := filter (is_major what threshold) df in
  let number_major_delays := List.length df in
  ratio <- py_div number_major_delays number_observations ;;
  let percentage := (ratio * 100)%Q in
  Returned (number_observations, number_major_delays, py_round2 percentage).

(* ------------------------------------------------------------------ *)
(** ** [func_defs.py]: the same helpers over the global tables *)

Module FuncDefs.

(** A row of the stop table ([haltestelle.csv]). *)
Record stop_row : Type := mkStop {
  s_halt_kurz : string;
  s_halt_lang : string
}.

(** No [drop_duplicates] here: every row of the stop table stays. *)
Definition convert_short_to_long (name : string) (stops : list stop_row)
  : outcome loc_result :=
  let stops := map (fun r => (s_halt_kurz r, s_halt_lang r)) stops in
  let stops := map (fun p => (fst p, strip_city (snd p))) stops in
  series_loc stops name.

Section Globals.

(** The module-level observation table. *)
Variable trams : dataframe.

Definition main_routes_of_line (line : Z) : list string :=
  let df := filter (fun r => (linie r =? line)%Z) trams in
  map fst (firstn 2 (value_counts (map fw_lang df))).

Definition stops_on_route (fuel : nat) (route : string) : outcome (list string) :=
  first_stop <- getitem (split route) 0 ;;
  last_stop <- getitem (split route) 2 ;;
  let df := filter (fun r => fw_lang r =? route) trams in
  let df := map (fun r => (halt_kurz_von1 r, halt_kurz_nach1 r)) df in
  let df := drop_duplicates_last fst df in
  stops_loop fuel df last_stop [] first_stop.

Definition contributions (fuel : nat) (route : string)
  : outcome (list (string * cont_row)) :=
  let df := filter (fun r => fw_lang r =? route) trams in
  let conts := grouped_means df in
  stops_in_order <- stops_on_route fuel route ;;
  reindex conts stops_in_order.

Definition number_of_stops (fuel : nat) (route : string) : outcome nat :=
  conts <- contributions fuel route ;;
  Returned (List.length conts).

Definition delay_along_route (fuel : nat) (route : string)
           (which_holdup : string) (absolute : bool) : outcome Q :=
  let idx := holdup_index which_holdup in
  conts <- contributions fuel route ;;
  let cells := map (fun p => column idx (snd p)) conts in
  let cells := if absolute then map abs_cell cells else cells in
  Returned (sum_cells cells).

Definition measure_body (fuel : nat) (which_holdup : string)
           (absolute per_stop : bool) (route : string) (measures : list float)
  : outcome (flow (list float) float) :=
  num <- delay_along_route fuel route which_holdup absolute ;;
  den <- number_of_stops fuel route ;;
  let measures :=
      if per_stop then measures ++ [fdiv (Fin num) den] else measures ++ [Fin num] in
  Returned (Return (fdiv (py_sum measures) (List.length measures))).

Definition measure_of_delay_line (fuel : nat) (line : Z)
           (which_holdup : string) (absolute per_stop : bool) : outcome (option float) :=
  for_each (measure_body fuel which_holdup absolute per_stop)
           (main_routes_of_line line) [].

End Globals.

End FuncDefs.

(* ------------------------------------------------------------------ *)
(** ** Notions of the specification *)

(** The observations of a route that leave from a stop. *)
Definition observations (route : string) (data : dataframe) (s : string) : list row :=
  filter (fun r => (fw_lang r =? route) && (halt_kurz_von1 r =? s)) data.

(** The three holdup columns of an observation, by position. *)
Definition raw_column (idx : nat) (r : row) : Q :=
  match idx with
  | 0 => holdup_stop r
  | 1 => holdup_trajectory r
  | _ => total_holdup r
  end.

(** Mean first, absolute value second: the absolute values of the per-stop
    averages, summed over the stops. *)
Definition mean_then_abs (route : string) (data : dataframe) (idx : nat)
           (stops : list string) : Q :=
  Qsum (map (fun s => Qabs (mean (map (raw_column idx) (observations route data s)))) stops).

(** Absolute value first, mean second: the per-stop averages of the absolute
    values of the observations, summed over the stops. *)
Definition abs_then_mean (route : string) (data : dataframe) (idx : nat)
           (stops : list string) : Q :=
  Qsum (map (fun s => mean (map (fun r => Qabs (raw_column idx r)) (observations route data s)))
            stops).

(** Every origin stop of the route carries one long name. *)
Definition one_name_per_stop (route : string) (data : dataframe) : Prop :=
  forall r r', In r data -> In r' data ->
               fw_lang r = route -> fw_lang r' = route ->
               halt_kurz_von1 r = halt_kurz_von1 r' -> halt_lang r = halt_lang r'.

(** Row by row, the total holdup is the sum of the other two. *)
Definition rowwise_total (route : string) (data : dataframe) : Prop :=
  forall r, In r data -> fw_lang r = route ->
            (total_holdup r == holdup_stop r + holdup_trajectory r)%Q.

(** On a row of the contributions table the total is the sum of the other
    two cells, or all three are missing. *)
Definition row_additive (c : cont_row) : Prop :=
  match c_total_holdup c, c_holdup_stop c, c_holdup_trajectory c with
  | Some t, Some a, Some b => (t == a + b)%Q
  | None, None, None => True
  | _, _, _ => False
  end.

(** The three calls behave alike, and when they return, the first value is
    the sum of the other two. *)
Definition sum_of (t a b : outcome Q) : Prop :=
  match t, a, b with
  | Returned x, Returned y, Returned z => (x == y + z)%Q
  | Raised e, Raised e1, Raised e2 => e = e1 /\ e = e2
  | Timeout, Timeout, Timeout => True
  | _, _, _ => False
  end.

(** The measure of one route: its delay, divided by its number of stops
    when asked per stop. *)
Definition route_measure (fuel : nat) (data : dataframe) (which_holdup : string)
           (absolute per_stop : bool) (route : string) : outcome float :=
  num <- delay_along_route fuel route data which_holdup absolute ;;
  den <- number_of_stops fuel route data ;;
  Returned (if per_stop then fdiv (Fin num) den else Fin num).

(** "Both directions averaged", in the words of the docstring: the mean of
    the measures of all the main routes of the line. *)
Fixpoint route_measures (fuel : nat) (data : dataframe) (which_holdup : string)
         (absolute per_stop : bool) (routes : list string) : outcome (list float) :=
  match routes with
  | [] => Returned []
  | route :: rest =>
    m <- route_measure fuel data which_holdup absolute per_stop route ;;
    ms <- route_measures fuel data which_holdup absolute per_stop rest ;;
    Returned (m :: ms)
  end.

Definition average_over_routes (fuel : nat) (line : Z) (data : dataframe)
           (which_holdup : string) (absolute per_stop : bool) : outcome float :=
  ms <- route_measures fuel data which_holdup absolute per_stop
                       (main_routes_of_line line data) ;;
  Returned (fdiv (py_sum ms) (List.length ms)).

(** The call on the line behaves as the computation [c] on one route: it
    returns the same float, raises the same exception, or runs as long. *)
Definition same_measure (r : outcome (option float)) (c : outcome float) : Prop :=
  match r, c with
  | Returned (Some v), Returned w => float_eq v w
  | Raised e, Raised e' => e = e'
  | Timeout, Timeout => True
  | _, _ => False
  end.

(** The observations of a route taken at a stop. *)
Definition observations_at (route : string) (data : dataframe) (p : string) : list row :=
  filter (fun r => (fw_lang r =? route) && (halt_kurz r =? p)) data.

(** A delay is major when it exceeds the threshold; in "deviation" mode, when
    its absolute value does. *)
Definition exceeds (what : string) (threshold d : Q) : bool :=
  if what =? "deviation" then Qltb threshold (Qabs d) else Qltb threshold d.

(** The observations taken at a stop, and the major ones among them,
    counted. *)
Definition major_counts (route : string) (data : dataframe) (p : string)
           (threshold : Q) (what : string) : nat * nat :=
  let seen := observations_at route data p in
  (List.length seen,
   List.length (filter (fun r => exceeds what threshold (delay_after_trajectory r)) seen)).

(** No entry after the head has a larger count than the head. *)
Definition head_max (l : list (string * nat)) : Prop :=
  match l with
  | [] => True
  | h :: t => forall q, In q t -> snd q <= snd h
  end.

(** [pat] occurs somewhere in [s]. *)
Fixpoint occurs (pat s : string) : bool :=
  prefix pat s
  || match s with
     | EmptyString => false
     | String _ t => occurs pat t
     end.

(** A city prefix is left at the start of a name. *)
Definition has_city_prefix (s : string) : bool :=
  prefix zurich_comma_space s || prefix zurich_comma s.

(* ------------------------------------------------------------------ *)
(** ** Sample tables *)

Definition obs (line : Z) (route stop long next : string) (hs ht d : Q) : row :=
  mkRow line route stop long stop next hs ht (hs + ht) d.

(** A two-segment route A -> B -> C of line 4, three trips. *)
Definition sample : dataframe :=
  [ obs 4 "A - C" "A" "Zürich, Alpha" "B" 2 3 5;
    obs 4 "A - C" "B" "Zürich,Beta" "C" 1 (-1) 7;
    obs 4 "A - C" "A" "Zürich, Alpha" "B" 4 (-1) (-3);
    obs 4 "A - C" "B" "Zürich,Beta" "C" 1 (-2) 12;
    obs 4 "A - C" "A" "Zürich, Alpha" "B" 6 1 40;
    obs 4 "A - C" "B" "Zürich,Beta" "C" 1 0 0;
    obs 4 "C - A" "C" "Gamma" "B" 3 3 1;
    obs 4 "C - A" "B" "Zürich,Beta" "A" (-5) 1 2 ].

(** Two stops that share their long name. *)
Definition twins : dataframe :=
  [ obs 2 "X1 - Y" "X1" "Zürich, Depot" "Y" 0 0 0;
    obs 2 "X2 - Y" "X2" "Zürich, Depot" "Y" 0 0 0 ].

(** A long name in which removing one occurrence of the prefix brings
    another one together. *)
Definition nested : dataframe :=
  [ obs 2 "N - Y" "N" "ZürZürich,ich,Nord" "Y" 0 0 0 ].

(** A route whose successor chain A -> B -> A never meets its last stop. *)
Definition cyclic : dataframe :=
  [ obs 9 "A - C" "A" "Alpha" "B" 0 0 0;
    obs 9 "A - C" "B" "Beta" "A" 0 0 0 ].

(** A route whose chain stops short: B has no successor. *)
Definition broken : dataframe :=
  [ obs 9 "A - C" "A" "Alpha" "B" 0 0 0 ].

(* ------------------------------------------------------------------ *)
(** ** [major_contributions] and [major_contributions_line] *)

(** A row of the table of major contributions: the columns [halt_lang],
    [holdup_stop] and [total_holdup]. *)
Record major_row : Type := mkMajor {
  m_halt_lang : option string;
  m_holdup_stop : option Q;
  m_total_holdup : option Q
}.

(** [cell > cutoff]; a missing cell compares false. *)
Definition cell_gt (c : option Q) (cutoff : Q) : bool :=
  match c with
  | Some q => Qltb cutoff q
  | None => false
  end.

Definition major_contributions (fuel : nat) (route : string) (data : dataframe)
           (cutoff : Q) : outcome (list (string * major_row)) :=
  conts <- contributions fuel route data ;;
  let conts := filter (fun p => cell_gt (c_total_holdup (snd p)) cutoff) conts in
  let conts :=
      map (fun p => (fst p, mkMajor (c_halt_lang (snd p)) (c_holdup_stop (snd p))
                                    (c_total_holdup (snd p)))) conts in
  Returned conts.

Definition major_contributions_line (fuel : nat) (line : Z) (data : dataframe)
           (cutoff : Q) (reverse : bool) : outcome (list (string * major_row)) :=
  let routes := main_routes_of_line line data in
  let idx := if reverse then 1 else 0 in
  route <- getitem routes idx ;;
  major_contributions fuel route data cutoff.

(* ------------------------------------------------------------------ *)
(** ** [table_lines] *)

(** The loop of [table_lines]: the deviation is asked for without passing
    [per_stop] on, so with its default [True]. *)
Fixpoint table_lines_loop (fuel : nat) (data : dataframe) (which_holdup : string)
         (per_stop : bool) (lines : list Z)
         (delays deviations : list (option float))
  : outcome (list (option float) * list (option float)) :=
  match lines with
  | [] => Returned (delays, deviations)
  | line :: rest =>
    delay <- measure_of_delay_line fuel line data which_holdup false per_stop ;;
    let delays := delays ++ [delay] in
    deviation <- measure_of_delay_line fuel line data which_holdup true true ;;
    let deviations := deviations ++ [deviation] in
    table_lines_loop fuel data which_holdup per_stop rest delays deviations
  end.

(** A row of the table: the line (the index), its delay and its deviation. *)
Definition table_lines (fuel : nat) (lines : list Z) (data : dataframe)
           (which_holdup : string) (per_stop : bool)
  : outcome (list (Z * (option float * option float))) :=
  cols <- table_lines_loop fuel data which_holdup per_stop lines [] [] ;;
  Returned (combine lines (combine (fst cols) (snd cols))).

(* ------------------------------------------------------------------ *)
(** ** [freq_major_delays_line] and [table_major_delays_lines] *)

(** [a, b = l]: the list must hold exactly two items. *)
Definition unpack2 {A : Type} (l : list A) : outcome (A * A) :=
  match l with
  | [a; b] => Returned (a, b)
  | _ => Raised ValueError
  end.

Definition freq_major_delays_line (fuel : nat) (line : Z) (data : dataframe)
           (cutoff : Q) (per_stop : bool) (what : string) : outcome Q :=
  routes <- unpack2 (main_routes_of_line line data) ;;
  let one_route := fst routes in
  let other_route := snd routes in
  a <- freq_major_delays_route fuel one_route data cutoff per_stop what ;;
  b <- freq_major_delays_route fuel other_route data cutoff per_stop what ;;
  let total_obs := fst (fst a) + fst (fst b) in
  c <- freq_major_delays_route fuel one_route data cutoff per_stop what ;;
  d <- freq_major_delays_route fuel other_route data cutoff per_stop what ;;
  let total_major_delays := snd (fst c) + snd (fst d) in
  ratio <- py_div total_major_delays total_obs ;;
  Returned (ratio * 100)%Q.

Fixpoint major_delays_loop (fuel : nat) (data : dataframe) (cutoff : Q)
         (per_stop : bool) (what : string) (lines : list Z) (percentages : list Q)
  : outcome (list Q) :=
  match lines with
  | [] => Returned percentages
  | line :: rest =>
    percentage <- freq_major_delays_line fuel line data cutoff per_stop what ;;
    let percentage := py_round2 percentage in
    major_delays_loop fuel data cutoff per_stop what rest (percentages ++ [percentage])
  end.

Definition table_major_delays_lines (fuel : nat) (lines : list Z) (data : dataframe)
           (cutoff : Q) (per_stop : bool) (what : string) : outcome (list (Z * Q)) :=
  percentages <- major_delays_loop fuel data cutoff per_stop what lines [] ;;
  Returned (combine lines percentages).

(* ------------------------------------------------------------------ *)
(** ** [freq_major_holdups_stop] and [freq_major_holdups_all_stops] *)

(** These helpers can fail in two more ways: a local variable read before
    any branch has assigned it, and a value that cannot be a dictionary
    key. *)
Inductive error : Type :=
| Exn (e : exn)
| UnboundLocalError (name : string)
| TypeError.

Inductive answer (A : Type) : Type :=
| Value (a : A)
| Error (e : error)
| Running.

Arguments Value {A} a.
Arguments Error {A} e.
Arguments Running {A}.

Definition of_outcome {A : Type} (o : outcome A) : answer A :=
  match o with
  | Returned a => Value a
  | Raised e => Error (Exn e)
  | Timeout => Running
  end.

Definition bind_answer {A B : Type} (c : answer A) (k : A -> answer B) : answer B :=
  match c with
  | Value a => k a
  | Error e => Error e
  | Running => Running
  end.

Notation "x <~ c ;; k" := (bind_answer c (fun x => k))
  (at level 61, c at next level, right associativity).

(** Reading a local variable that the branches may have left unassigned. *)
Definition read_local {A : Type} (name : string) (v : option A) : answer A :=
  match v with
  | Some a => Value a
  | None => Error (UnboundLocalError name)
  end.

(** The [if]/[elif] chain that assigns [col]; it has no [else]. *)
Definition holdup_column (which_holdup : string) : option (row -> Q) :=
  if which_holdup =? "at_stop" then Some holdup_stop
  else if which_holdup =? "on_trajectory" then Some holdup_trajectory
  else if which_holdup =? "total" then Some total_holdup
  else None.

Definition freq_major_holdups_stop (line : Z) (stop : string) (cutoff : Q)
           (data : dataframe) (what : string) (reverse : bool) (which_holdup : string)
  : answer Q :=
  let routes := main_routes_of_line line data in
  route <~ of_outcome (if reverse then getitem routes 1 else getitem routes 0) ;;
  let df := filter (fun r => fw_lang r =? route) data in
  let df := filter (fun r => (halt_kurz r =? stop) || (halt_lang r =? stop)) df in
  let num_obs := List.length df in
  let col := holdup_column which_holdup in
  ndf <~ (if what =? "deviation"
          then col <~ read_local "col" col ;;
               Value (filter (fun r => Qltb cutoff (col r) || Qltb (col r) (-1 * cutoff)) df)
          else col <~ read_local "col" col ;;
               Value (filter (fun r => Qltb cutoff (col r)) df)) ;;
  let num_maj_obs := List.length ndf in
  ratio <~ of_outcome (py_div num_maj_obs num_obs) ;;
  Value (ratio * 100)%Q.

(** [dictionary[k] = v]: the value of a key already there is replaced where
    it stands, a new key goes to the end. *)
Fixpoint dict_set {V : Type} (k : string) (v : V) (d : list (string * V))
  : list (string * V) :=
  match d with
  | [] => [(k, v)]
  | (k', v') :: t => if k' =? k then (k', v) :: t else (k', v') :: dict_set k v t
  end.

(** A string can be a dictionary key, a pandas series cannot. *)
Definition dict_key (x : loc_result) : answer string :=
  match x with
  | Scalar v => Value v
  | Series _ => Error TypeError
  end.

Fixpoint all_stops_loop (line : Z) (cutoff : Q) (data : dataframe) (what : string)
         (reverse : bool) (which_holdup : string) (rel_stops : list string)
         (dictionary : list (string * Q)) : answer (list (string * Q)) :=
  match rel_stops with
  | [] => Value dictionary
  | stop :: rest =>
    percentage <~ freq_major_holdups_stop line stop cutoff data what reverse which_holdup ;;
    stop_long <~ of_outcome (convert_short_to_long stop data) ;;
    key <~ dict_key stop_long ;;
    all_stops_loop line cutoff data what reverse which_holdup rest
                   (dict_set key percentage dictionary)
  end.

(** The table has one row per key of the dictionary, in insertion order. *)
Definition freq_major_holdups_all_stops (fuel : nat) (line : Z) (cutoff : Q)
           (data : dataframe) (what : string) (reverse : bool) (which_holdup : string)
  : answer (list (string * Q)) :=
  let routes := main_routes_of_line line data in
  route <~ of_outcome (if reverse then getitem routes 1 else getitem routes 0) ;;
  rel_stops <~ of_outcome (stops_on_route fuel route data) ;;
  all_stops_loop line cutoff data what reverse which_holdup rel_stops [].

(* ------------------------------------------------------------------ *)
(** ** [table_delays_lines] *)

(** The loop over the main routes of a line: the delays observed at the entry
    [stops_on_this_route[-2]] of each route are appended to [array]. *)
Fixpoint route_delays_loop (fuel : nat) (data : dataframe) (routes : list string)
         (array : list Q) : outcome (list Q) :=
  match routes with
  | [] => Returned array
  | route :: rest =>
    let df := filter (fun r => fw_lang r =? route) data in
    stops_on_this_route <- stops_on_route fuel route data ;;
    penultimate_stop <- getitem_neg stops_on_this_route 2 ;;
    let df := filter (fun r => halt_kurz r =? penultimate_stop) df in
    let col := map delay_after_trajectory df in
    route_delays_loop fuel data rest (array ++ col)
  end.

(** [dictionary[line] = array] for a dictionary keyed by lines. *)
Fixpoint dict_set_line {V : Type} (k : Z) (v : V) (d : list (Z * V)) : list (Z * V) :=
  match d with
  | [] => [(k, v)]
  | (k', v') :: t =>
    if (k' =? k)%Z then (k', v) :: t else (k', v') :: dict_set_line k v t
  end.

Fixpoint lines_delays_loop (fuel : nat) (data : dataframe) (lines : list Z)
         (dictionary : list (Z * list Q)) : outcome (list (Z * list Q)) :=
  match lines with
  | [] => Returned dictionary
  | line :: rest =>
    let routes := main_routes_of_line line data in
    array <- route_delays_loop fuel data routes [] ;;
    lines_delays_loop fuel data rest (dict_set_line line array dictionary)
  end.

(** A column of the frame: the values of a series, followed by missing cells
    down to the height of the frame. *)
Definition pad (height : nat) (values : list Q) : list (option Q) :=
  map Some values ++ repeat None (height - List.length values).

(** The frame has one column per key, in insertion order, as high as the
    longest series. *)
Definition table_delays_lines (fuel : nat) (lines : list Z) (data : dataframe)
  : outcome (list (Z * list (option Q))) :=
  dictionary <- lines_delays_loop fuel data lines [] ;;
  let height := fold_right Nat.max 0 (map (fun kv => List.length (snd kv)) dictionary) in
  Returned (map (fun kv => (fst kv, pad height (snd kv))) dictionary).

(* ------------------------------------------------------------------ *)
(** ** Notions of the further properties *)

Definition count_ge (a b : string * nat) : Prop := snd b <= snd a.

(** A round trip of one stop, seen on every trip of line 5. *)
Definition loop_line : dataframe :=
  [ obs 5 "D - D" "D" "Depot" "D" 3 4 1;
    obs 5 "D - D" "D" "Depot" "D" 1 2 0 ].

(** Every cell of the row is present. *)
Definition full_row (c : cont_row) : Prop :=
  exists name a b t, c = mkCont (Some name) (Some a) (Some b) (Some t).

(** A text of printable ASCII characters other than the blank. *)
Definition plain (s : string) : bool :=
  forallb (fun b => (32 <? b) && (b <? 128))%N (bytes s).

(** The row of a line holds the delay of the line as asked for, and its
    deviation per stop. *)
Definition line_row (fuel : nat) (data : dataframe) (which_holdup : string)
           (per_stop : bool) (row : Z * (option float * option float)) : Prop :=
  measure_of_delay_line fuel (fst row) data which_holdup false per_stop
  = Returned (fst (snd row))
  /\ measure_of_delay_line fuel (fst row) data which_holdup true true
     = Returned (snd (snd row)).

(** The observations of a route at a stop given by its short or long name. *)
Definition seen_at (route stop : string) (data : dataframe) : list row :=
  filter (fun r => (halt_kurz r =? stop) || (halt_lang r =? stop))
         (filter (fun r => fw_lang r =? route) data).

(** The row of a stop: its resolved name and its percentage. *)
Definition stop_row (line : Z) (cutoff : Q) (data : dataframe) (what : string)
           (reverse : bool) (which_holdup : string) (stop : string)
           (row : string * Q) : Prop :=
  convert_short_to_long stop data = Returned (Scalar (fst row))
  /\ freq_major_holdups_stop line stop cutoff data what reverse which_holdup
     = Value (snd row).

(* ================================================================== *)
(** * Properties *)

Example split_route : split "BSTA - BUCH" = ["BSTA"; "-"; "BUCH"].
Proof. reflexivity. Qed.

Example split_blanks : split "  A	-
 B  C " = ["A"; "-"; "B"; "C"].
Proof. reflexivity. Qed.

Example stops_sample : stops_on_route 5 "A - C" sample = Returned ["A"; "B"].
Proof. reflexivity. Qed.

(* ------------------------------------------------------------------ *)
(** ** The successor table *)

Lemma loc_table_succ df s :
  loc df s = match table_succ df s with
             | Some t => Returned t
             | None => Raised (KeyError s)
             end.
Proof. unfold loc, table_succ. destruct (find _ df); reflexivity. Qed.

Section KeepLast.

Variable k : string.

Let at_k (p : string * string) : bool := fst p =? k.

Lemma existsb_false_filter (l : list (string * string)) :
  existsb at_k l = false -> filter at_k l = [].
Proof.
  induction l as [|q t IH]; simpl; [reflexivity|].
  destruct (at_k q); simpl; [discriminate | exact IH].
Qed.

Lemma existsb_true_filter (l : list (string * string)) :
  existsb at_k l = true -> filter at_k l <> [].
Proof.
  induction l as [|q t IH]; simpl; [discriminate|].
  destruct (at_k q); simpl; [discriminate | exact IH].
Qed.

Lemma hd_error_app_nonempty {A : Type} (a b : list A) :
  a <> [] -> hd_error (a ++ b) = hd_error a.
Proof. destruct a; [congruence | reflexivity]. Qed.

(** Looking a key up after [drop_duplicates(keep="last")] finds the last row
    that carries it. *)
Lemma find_drop_duplicates_last (l : list (string * string)) :
  find at_k (drop_duplicates_last fst l) = hd_error (rev (filter at_k l)).
Proof.
  induction l as [|p t IH]; simpl; [reflexivity|].
  destruct (existsb (fun r' => fst r' =? fst p) t) eqn:E.
  - rewrite IH. destruct (at_k p) eqn:K; [|reflexivity].
    apply String.eqb_eq in K. rewrite K in E.
    simpl. rewrite hd_error_app_nonempty; [reflexivity|].
    intro H. apply (existsb_true_filter t E).
    apply (f_equal (@rev _)) in H. rewrite rev_involutive in H. exact H.
  - simpl. destruct (at_k p) eqn:K; [|exact IH].
    apply String.eqb_eq in K. rewrite K in E.
    simpl. rewrite (existsb_false_filter t E). reflexivity.
Qed.

End KeepLast.

(** The table the code builds answers exactly as the last-write-wins
    successor of the specification. *)
Lemma table_succ_successor route data s :
  table_succ (successor_table route data) s = successor route data s.
Proof.
  unfold table_succ, successor_table, successor.
  rewrite find_drop_duplicates_last.
  assert (E : forall d : dataframe,
             filter (fun p : string * string => fst p =? s)
                    (map (fun r => (halt_kurz_von1 r, halt_kurz_nach1 r))
                         (filter (fun r => fw_lang r =? route) d))
             = map (fun r => (halt_kurz_von1 r, halt_kurz_nach1 r))
                   (filter (fun r => (fw_lang r =? route) && (halt_kurz_von1 r =? s)) d)).
  { induction d as [|r t IH]; simpl; [reflexivity|].
    destruct (fw_lang r =? route); simpl; [|exact IH].
    destruct (halt_kurz_von1 r =? s); simpl; [f_equal|]; exact IH. }
  rewrite E, <- map_rev.
  destruct (rev _); reflexivity.
Qed.

(** X2: the table that [stops_on_route] builds with
    [drop_duplicates(subset="halt_kurz_von1", keep="last")] answers a lookup
    with the destination of the last observation of the route that leaves
    from the stop, and with [KeyError] when there is none. *)
Theorem successor_table_last_write_wins route data s :
  loc (successor_table route data) s
  = match successor route data s with
    | Some t => Returned t
    | None => Raised (KeyError s)
    end.
Proof.
  rewrite loc_table_succ, table_succ_successor. reflexivity.
Qed.

(* ------------------------------------------------------------------ *)
(** ** Chains of successors *)

Section Chains.

Variable succ : string -> option string.
Variable last : string.

Lemma walk_add n m s :
  walk succ (n + m) s = match walk succ n s with
                        | Some t => walk succ m t
                        | None => None
                        end.
Proof.
  revert s. induction n as [|n IH]; intros s; simpl; [reflexivity|].
  destruct (succ s); [apply IH | reflexivity].
Qed.

Lemma linked_nonempty cur p : linked succ last cur p -> cur <> last -> hd_error p = Some cur.
Proof. intros H N. destruct H; [congruence | reflexivity]. Qed.

Lemma linked_empty p : linked succ last last p -> p = [].
Proof. intros H. inversion H; congruence. Qed.

Lemma linked_not_in cur p : linked succ last cur p -> ~ In last p.
Proof.
  induction 1 as [|cur next p N E H IH]; simpl; [tauto|].
  intros [F|F]; [congruence | exact (IH F)].
Qed.

Lemma linked_functional cur p q :
  linked succ last cur p -> linked succ last cur q -> p = q.
Proof.
  intros H. revert q. induction H as [|cur next p N E H IH]; intros q Hq.
  - symmetry. apply linked_empty. exact Hq.
  - inversion Hq as [|c n' q' N' E' H' ]; subst; [congruence|].
    f_equal. apply IH. congruence.
Qed.

(** From any stop of the sequence the rest of the sequence is linked too. *)
Lemma linked_suffix cur p s :
  linked succ last cur p -> In s p ->
  exists p1 p2, p = p1 ++ s :: p2 /\ linked succ last s (s :: p2).
Proof.
  induction 1 as [|cur next p N E H IH]; simpl; [tauto|].
  intros [->|I].
  - exists [], p. split; [reflexivity|]. econstructor; eassumption.
  - destruct (IH I) as (p1 & p2 & -> & L). exists (cur :: p1), p2. split; [reflexivity | exact L].
Qed.

Lemma linked_NoDup cur p : linked succ last cur p -> NoDup p.
Proof.
  induction 1 as [|cur next p N E H IH]; constructor; [|exact IH].
  intros I.
  destruct (linked_suffix next p cur H I) as (p1 & p2 & -> & L).
  assert (L' : linked succ last cur (cur :: p1 ++ cur :: p2))
    by (econstructor; eassumption).
  pose proof (linked_functional _ _ _ L L') as F.
  apply (f_equal (@List.length _)) in F. simpl in F.
  rewrite length_app in F. simpl in F. lia.
Qed.

(** Each stop of the sequence is followed by its successor; the successor of
    the final one is the last stop. *)
Lemma linked_next cur p i s :
  linked succ last cur p -> nth_error p i = Some s ->
  succ s = Some (nth i (tl p) last).
Proof.
  intros H. revert i. induction H as [|cur next p N E H IH]; intros i Hi.
  - destruct i; discriminate.
  - destruct i as [|i]; simpl in *.
    + injection Hi as <-. rewrite E. f_equal.
      destruct H; reflexivity.
    + rewrite (IH i Hi). f_equal.
      destruct p as [|x p']; [destruct i; discriminate|]. simpl.
      destruct i; reflexivity.
Qed.

Lemma linked_walk cur p : linked succ last cur p -> walk succ (List.length p) cur = Some last.
Proof.
  induction 1 as [|cur next p N E H IH]; simpl; [reflexivity|].
  rewrite E. exact IH.
Qed.

(** A chain that meets the last stop yields a linked sequence, no longer than
    the chain. *)
Lemma walk_linked n cur :
  walk succ n cur = Some last ->
  exists p, linked succ last cur p /\ List.length p <= n.
Proof.
  revert cur. induction n as [|n IH]; intros cur H; simpl in H.
  - injection H as ->. exists []. split; [apply linked_done | simpl; lia].
  - destruct (string_dec cur last) as [->|N].
    + exists []. split; [apply linked_done | simpl; lia].
    + destruct (succ cur) as [t|] eqn:E; [|discriminate].
      destruct (IH t H) as (p & L & Hp).
      exists (cur :: p). split; [econstructor; eassumption | simpl; lia].
Qed.

(** Every stop of a linked sequence lies on the chain, before the last stop
    is met. *)
Lemma linked_nth_walk cur p i s :
  linked succ last cur p -> nth_error p i = Some s -> walk succ i cur = Some s.
Proof.
  intros H. revert i. induction H as [|cur next p N E H IH]; intros i Hi.
  - destruct i; discriminate.
  - destruct i as [|i]; simpl in *; [congruence|].
    rewrite E. apply IH. exact Hi.
Qed.

Lemma endless_step cur :
  endless succ last cur ->
  exists t, succ cur = Some t /\ endless succ last t /\ cur <> last.
Proof.
  intros H. destruct (H 1) as (t & Ht & _). simpl in Ht.
  destruct (succ cur) as [u|] eqn:E; [|discriminate].
  exists u. split; [reflexivity|]. split.
  - intros k. destruct (H (S k)) as (v & Hv & Nv). simpl in Hv. rewrite E in Hv.
    exists v. split; assumption.
  - destruct (H 0) as (v & Hv & Nv). simpl in Hv. congruence.
Qed.

(** A chain that comes back to a stop it has visited, without having met the
    last stop, never meets it. *)
Lemma cycle_endless a i p s :
  0 < p ->
  walk succ i a = Some s -> walk succ p s = Some s ->
  (forall k, k < i + p -> walk succ k a <> Some last) ->
  endless succ last a.
Proof.
  intros Hp Hi Hc Hfree.
  assert (Hper : forall m, walk succ (i + p + m) a = walk succ (i + m) a).
  { intros m. replace (i + p + m) with (i + (p + m)) by lia.
    rewrite !(walk_add i), Hi. cbv iota beta.
    rewrite walk_add, Hc. reflexivity. }
  assert (Hdef : forall k, k <= i + p -> walk succ k a <> None).
  { intros k Hk F.
    assert (G : walk succ (i + p) a = None).
    { replace (i + p) with (k + (i + p - k)) by lia. rewrite walk_add, F. reflexivity. }
    rewrite walk_add, Hi in G. cbv iota beta in G. rewrite Hc in G. discriminate. }
  assert (Hall : forall k, walk succ k a <> None /\ walk succ k a <> Some last).
  { intros k. induction k as [k IH] using lt_wf_ind.
    destruct (Nat.lt_ge_cases k (i + p)) as [L|G].
    - split; [apply Hdef; lia | apply Hfree; exact L].
    - replace k with (i + p + (k - (i + p))) by lia. rewrite Hper.
      apply IH. lia. }
  intros k. destruct (Hall k) as [D N].
  destruct (walk succ k a) as [t|]; [|congruence].
  exists t. split; [reflexivity | congruence].
Qed.

End Chains.

(* ------------------------------------------------------------------ *)
(** ** The traversal loop *)

Section Loop.

Variable df : list (string * string).
Variable last : string.

Variable succ : string -> option string.
Hypothesis succ_df : forall s, table_succ df s = succ s.

Lemma stops_loop_linked cur p :
  linked succ last cur p ->
  forall fuel acc, List.length p <= fuel ->
                   stops_loop fuel df last acc cur = Returned (acc ++ p).
Proof.
  induction 1 as [|cur next p N E H IH]; intros fuel acc Hf.
  - destruct fuel; simpl; rewrite String.eqb_refl, app_nil_r; reflexivity.
  - destruct fuel as [|fuel]; simpl in Hf; [lia|]. simpl.
    apply String.eqb_neq in N. rewrite N.
    rewrite loc_table_succ, succ_df, E. simpl.
    rewrite IH by lia. rewrite <- app_assoc. reflexivity.
Qed.

Lemma stops_loop_returned fuel :
  forall acc cur l,
    stops_loop fuel df last acc cur = Returned l ->
    exists p, l = acc ++ p /\ linked succ last cur p /\ List.length p <= fuel.
Proof.
  induction fuel as [|fuel IH]; intros acc cur l; simpl;
    destruct (String.eqb_spec cur last) as [->|N]; intros H.
  - injection H as <-. exists []. rewrite app_nil_r. repeat split; [apply linked_done | simpl; lia].
  - discriminate.
  - injection H as <-. exists []. rewrite app_nil_r. repeat split; [apply linked_done | simpl; lia].
  - rewrite loc_table_succ, succ_df in H.
    destruct (succ cur) as [t|] eqn:E; simpl in H; [|discriminate].
    destruct (IH _ _ _ H) as (p & -> & L & Hp).
    exists (cur :: p). rewrite <- app_assoc. simpl.
    repeat split; [econstructor; eassumption | lia].
Qed.

Lemma stops_loop_endless fuel :
  forall acc cur, endless succ last cur -> stops_loop fuel df last acc cur = Timeout.
Proof.
  induction fuel as [|fuel IH]; intros acc cur H;
    destruct (endless_step _ _ _ H) as (t & E & Ht & N);
    simpl; apply String.eqb_neq in N; rewrite N; [reflexivity|].
  rewrite loc_table_succ, succ_df, E. simpl. apply IH. exact Ht.
Qed.

Lemma stops_loop_key_error n :
  forall cur s acc fuel,
    walk succ n cur = Some s ->
    (forall k, k <= n -> walk succ k cur <> Some last) ->
    succ s = None ->
    n < fuel ->
    stops_loop fuel df last acc cur = Raised (KeyError s).
Proof.
  induction n as [|n IH]; intros cur s acc fuel Hw Hfree Hs Hf;
    (destruct fuel as [|fuel]; [lia|]); simpl;
    assert (N : cur <> last) by (intros ->; apply (Hfree 0); [lia | reflexivity]);
    apply String.eqb_neq in N; rewrite N; rewrite loc_table_succ, succ_df.
  - simpl in Hw. injection Hw as ->. rewrite Hs. reflexivity.
  - simpl in Hw. destruct (succ cur) as [t|] eqn:E; [|discriminate]. simpl.
    apply (IH t s); [exact Hw | | exact Hs | lia].
    intros k Hk. specialize (Hfree (S k) ltac:(lia)). simpl in Hfree.
    rewrite E in Hfree. exact Hfree.
Qed.

End Loop.

(* ------------------------------------------------------------------ *)
(** ** [stops_on_route] *)

Lemma stops_on_route_tokens fuel route data A B :
  nth_error (split route) 0 = Some A ->
  nth_error (split route) 2 = Some B ->
  stops_on_route fuel route data = stops_loop fuel (successor_table route data) B [] A.
Proof.
  intros HA HB. unfold stops_on_route, getitem. rewrite HA, HB. reflexivity.
Qed.

(** A call that returns has followed the successors from the first token of
    the label to the third. *)
Lemma stops_on_route_returned fuel route data l :
  stops_on_route fuel route data = Returned l ->
  exists A B,
    nth_error (split route) 0 = Some A /\
    nth_error (split route) 2 = Some B /\
    linked (successor route data) B A l /\
    List.length l <= fuel.
Proof.
  unfold stops_on_route, getitem.
  destruct (nth_error (split route) 0) as [A|]; cbn [bind]; [|discriminate].
  destruct (nth_error (split route) 2) as [B|]; cbn [bind]; [|discriminate].
  intros H.
  destruct (stops_loop_returned _ B _ (table_succ_successor route data) _ _ _ _ H)
    as (p & -> & L & Hp).
  exists A, B. simpl. auto.
Qed.

Lemma stops_on_route_linked route data A B l :
  nth_error (split route) 0 = Some A ->
  nth_error (split route) 2 = Some B ->
  linked (successor route data) B A l ->
  forall fuel, List.length l <= fuel -> stops_on_route fuel route data = Returned l.
Proof.
  intros HA HB L fuel Hf. rewrite (stops_on_route_tokens _ _ _ A B HA HB).
  apply (stops_loop_linked _ B _ (table_succ_successor route data) _ _ L fuel [] Hf).
Qed.

Lemma linked_route_sequence route data A B l :
  A <> B -> linked (successor route data) B A l -> route_sequence route data A B l.
Proof.
  intros N L. split; [|split].
  - apply (linked_nonempty _ _ _ _ L N).
  - apply (linked_not_in _ _ _ _ L).
  - intros i s Hi Hlen. rewrite (linked_next _ _ _ _ _ _ L Hi).
    destruct l as [|x t]; simpl in *; [lia|].
    symmetry. apply nth_error_nth'. lia.
Qed.

Lemma func_defs_stops_on_route data fuel route :
  FuncDefs.stops_on_route data fuel route = stops_on_route fuel route data.
Proof. reflexivity. Qed.

(** C1 (as amended): for a route label whose first and third tokens are two
    different stops [A] and [B], and whose chain of last-write-wins
    successors from [A] meets [B], [stops_on_route] (and its variant over the
    global table) returns, for every budget of at least the chain's length,
    one sequence; it starts with [A], never contains [B], and each element
    but the last is followed by its successor.  No budget makes the call
    return anything else. *)
Theorem stops_on_route_sequence route data A B n :
  nth_error (split route) 0 = Some A ->
  nth_error (split route) 2 = Some B ->
  A <> B ->
  walk (successor route data) n A = Some B ->
  exists l,
    (forall fuel, n <= fuel ->
                  stops_on_route fuel route data = Returned l
                  /\ FuncDefs.stops_on_route data fuel route = Returned l) /\
    (forall fuel l', stops_on_route fuel route data = Returned l' -> l' = l) /\
    route_sequence route data A B l.
Proof.
  intros HA HB N W.
  destruct (walk_linked _ _ _ _ W) as (l & L & Hl).
  exists l. split; [|split].
  - intros fuel Hf. rewrite func_defs_stops_on_route.
    assert (stops_on_route fuel route data = Returned l); [|tauto].
    apply (stops_on_route_linked _ _ A B); auto. lia.
  - intros fuel l' H.
    destruct (stops_on_route_returned _ _ _ _ H) as (A' & B' & HA' & HB' & L' & _).
    assert (A' = A) by congruence. assert (B' = B) by congruence. subst.
    apply (linked_functional _ _ _ _ _ L' L).
  - apply linked_route_sequence; assumption.
Qed.

Lemma stops_on_route_sequence_witness :
  exists l,
    (forall fuel, 2 <= fuel ->
                  stops_on_route fuel "A - C" sample = Returned l
                  /\ FuncDefs.stops_on_route sample fuel "A - C" = Returned l) /\
    (forall fuel l', stops_on_route fuel "A - C" sample = Returned l' -> l' = l) /\
    route_sequence "A - C" sample "A" "C" l.
Proof.
  apply (stops_on_route_sequence "A - C" sample "A" "C" 2);
    [reflexivity | reflexivity | discriminate | reflexivity].
Defined.

(** C1, the claim as stated fails: a label with equal end points gives the
    empty sequence, which does not start with the first stop; and a route
    whose chain breaks off returns no sequence at all. *)
Lemma stops_on_route_sequence_fails :
  ~ (exists fuel l, stops_on_route fuel "C - C" sample = Returned l
                    /\ route_sequence "C - C" sample "C" "C" l)
  /\ ~ (exists fuel l, stops_on_route fuel "A - C" broken = Returned l
                       /\ route_sequence "A - C" broken "A" "C" l).
Proof.
  split; intros (fuel & l & H & R).
  - assert (E : stops_on_route fuel "C - C" sample = Returned [])
      by (destruct fuel; reflexivity).
    rewrite E in H. injection H as <-. destruct R as (F & _). discriminate.
  - destruct fuel as [|[|fuel]]; discriminate.
Qed.

Lemma stops_on_route_no_duplicates_aux fuel route data l :
  stops_on_route fuel route data = Returned l -> NoDup l.
Proof.
  intros H.
  destruct (stops_on_route_returned _ _ _ _ H) as (A & B & _ & _ & L & _).
  apply (linked_NoDup _ _ _ _ L).
Qed.

(** C10: a sequence that [stops_on_route] returns holds no stop twice (a
    repeated stop would send the traversal round a cycle that never meets
    the last stop). *)
Theorem stops_on_route_no_duplicates fuel route data l :
  stops_on_route fuel route data = Returned l -> NoDup l.
Proof.
  intros H.
  destruct (stops_on_route_returned _ _ _ _ H) as (A & B & _ & _ & L & _).
  exact (linked_NoDup _ _ _ _ L).
Qed.

Lemma stops_on_route_no_duplicates_witness : NoDup ["A"; "B"].
Proof.
  apply (stops_on_route_no_duplicates 5 "A - C" sample). reflexivity.
Defined.

(** C5 (as amended): when the chain from the first stop comes to a stop
    without a successor before meeting the last stop, [stops_on_route] raises
    the lookup error [KeyError] on that stop (once the budget covers the
    chain); when the chain comes back to a stop it has visited without
    having met the last stop, the call never returns. *)
Theorem stops_on_route_malformed route data A B :
  nth_error (split route) 0 = Some A ->
  nth_error (split route) 2 = Some B ->
  (forall n s,
      walk (successor route data) n A = Some s ->
      (forall k, k <= n -> walk (successor route data) k A <> Some B) ->
      successor route data s = None ->
      forall fuel, n < fuel -> stops_on_route fuel route data = Raised (KeyError s))
  /\
  (forall i p s,
      0 < p ->
      walk (successor route data) i A = Some s ->
      walk (successor route data) p s = Some s ->
      (forall k, k < i + p -> walk (successor route data) k A <> Some B) ->
      diverges (fun fuel => stops_on_route fuel route data)).
Proof.
  intros HA HB. split.
  - intros n s W Free E fuel Hf. rewrite (stops_on_route_tokens _ _ _ A B HA HB).
    apply (stops_loop_key_error _ B _ (table_succ_successor route data) n A s); assumption.
  - intros i p s Hp Wi Wp Free fuel. rewrite (stops_on_route_tokens _ _ _ A B HA HB).
    apply (stops_loop_endless _ B _ (table_succ_successor route data)).
    apply (cycle_endless _ _ A i p s); assumption.
Qed.

Lemma stops_on_route_malformed_witness :
  stops_on_route 7 "A - C" broken = Raised (KeyError "B")
  /\ diverges (fun fuel => stops_on_route fuel "A - C" cyclic).
Proof.
  split.
  - apply (proj1 (stops_on_route_malformed "A - C" broken "A" "C" eq_refl eq_refl) 1 "B");
      [reflexivity | | reflexivity | lia].
    intros k Hk. destruct k as [|[|k]]; [discriminate | discriminate | lia].
  - apply (proj2 (stops_on_route_malformed "A - C" cyclic "A" "C" eq_refl eq_refl) 0 2 "A");
      [lia | reflexivity | reflexivity |].
    intros k Hk. destruct k as [|[|k]]; [discriminate | discriminate | simpl in Hk; lia].
Defined.

(** C5, the claim as stated fails: on a route whose chain A -> B -> A never
    meets the last stop the call raises nothing; it never returns. *)
Lemma stops_on_route_hangs :
  diverges (fun fuel => stops_on_route fuel "A - C" cyclic).
Proof.
  intros fuel.
  rewrite (stops_on_route_tokens fuel "A - C" cyclic "A" "C" eq_refl eq_refl).
  apply (stops_loop_endless _ "C" _ (table_succ_successor "A - C" cyclic)).
  apply (cycle_endless _ _ "A" 0 2 "A"); [lia | reflexivity | reflexivity |].
  intros k Hk. destruct k as [|[|k]]; [discriminate | discriminate | simpl in Hk; lia].
Qed.

(* ------------------------------------------------------------------ *)
(** ** Groups and reindexing *)

Lemma filter_nothing {A : Type} (f : A -> bool) (l : list A) :
  (forall x, In x l -> f x = false) -> filter f l = [].
Proof.
  induction l as [|x t IH]; intros H; simpl; [reflexivity|].
  rewrite (H x (or_introl eq_refl)). apply IH. intros y I. apply H. right. exact I.
Qed.

Lemma key_eqb_eq (a b : group_key) : key_eqb a b = true <-> a = b.
Proof.
  destruct a as [a1 a2], b as [b1 b2]. unfold key_eqb. simpl.
  rewrite andb_true_iff, !String.eqb_eq. split; [intros [-> ->]; reflexivity|].
  intros H. injection H as -> ->. split; reflexivity.
Qed.

Lemma unique_keys_In k l : In k (unique_keys l) <-> In k l.
Proof.
  induction l as [|x t IH]; simpl; [tauto|].
  rewrite filter_In, IH. split.
  - intros [H|[H _]]; auto.
  - intros [H|H]; [auto|].
    destruct (key_eqb k x) eqn:E; [left; symmetry; apply key_eqb_eq, E | right; auto].
Qed.

Lemma unique_keys_NoDup l : NoDup (unique_keys l).
Proof.
  induction l as [|x t IH]; simpl; constructor.
  - rewrite filter_In. intros [_ H].
    assert (E : key_eqb x x = true) by (apply key_eqb_eq; reflexivity).
    rewrite E in H. discriminate.
  - apply NoDup_filter, IH.
Qed.

Lemma insert_key_perm k l : Permutation (k :: l) (insert_key k l).
Proof.
  induction l as [|q t IH]; simpl; [reflexivity|].
  destruct (key_leb k q); [reflexivity|].
  rewrite perm_swap. apply perm_skip, IH.
Qed.

Lemma sort_keys_perm l : Permutation l (sort_keys l).
Proof.
  induction l as [|x t IH]; simpl; [constructor|].
  rewrite <- insert_key_perm. apply perm_skip, IH.
Qed.

Lemma group_keys_In df k : In k (group_keys df) <-> exists r, In r df /\ row_key r = k.
Proof.
  unfold group_keys. split.
  - intros H. apply (Permutation_in _ (Permutation_sym (sort_keys_perm _))) in H.
    apply unique_keys_In, in_map_iff in H. destruct H as (r & E & I). eauto.
  - intros (r & I & E). apply (Permutation_in _ (sort_keys_perm _)).
    apply unique_keys_In, in_map_iff. eauto.
Qed.

Lemma group_keys_NoDup df : NoDup (group_keys df).
Proof.
  apply (Permutation_NoDup (sort_keys_perm _)), unique_keys_NoDup.
Qed.

Lemma has_duplicates_NoDup l : has_duplicates l = false <-> NoDup l.
Proof.
  induction l as [|x t IH]; simpl.
  - split; [constructor | reflexivity].
  - rewrite orb_false_iff, IH. split.
    + intros [E N]. constructor; [|exact N].
      intros I. rewrite <- not_true_iff_false in E. apply E.
      apply existsb_exists. exists x. split; [exact I | apply String.eqb_refl].
    + intros N. inversion N as [|? ? NI N']; subst. split; [|exact N'].
      apply not_true_iff_false. intros E. apply existsb_exists in E.
      destruct E as (y & I & E). apply String.eqb_eq in E. subst. exact (NI I).
Qed.

Lemma list_eqb_eq a b : list_eqb a b = true <-> a = b.
Proof.
  revert b. induction a as [|x a IH]; intros [|y b]; simpl;
    try (split; [discriminate | congruence]); [tauto|].
  rewrite andb_true_iff, String.eqb_eq, IH. split; [intros [-> ->]; reflexivity|].
  intros H. injection H as -> ->. split; reflexivity.
Qed.

Lemma lookup_row_index conts :
  NoDup (map fst conts) ->
  map (fun s => (s, lookup_row conts s)) (map fst conts) = conts.
Proof.
  induction conts as [|[k v] t IH]; simpl; intros N; [reflexivity|].
  inversion N as [|? ? NI N']; subst.
  unfold lookup_row at 1. simpl. rewrite String.eqb_refl. simpl. f_equal.
  rewrite <- (IH N') at 2. apply map_ext_in. intros s I.
  unfold lookup_row. simpl.
  destruct (String.eqb_spec k s) as [->|_]; [contradiction | reflexivity].
Qed.

(** Onto a target without repeated labels, reindexing gives each label its
    row, in the target's order. *)
Lemma reindex_returned conts target T :
  NoDup target -> reindex conts target = Returned T ->
  T = map (fun s => (s, lookup_row conts s)) target.
Proof.
  unfold reindex. intros N.
  destruct (list_eqb (map fst conts) target) eqn:E.
  - apply list_eqb_eq in E. intros H. injection H as <-. subst target.
    symmetry. apply lookup_row_index, N.
  - destruct (has_duplicates _ && _); [discriminate|].
    intros H. injection H as <-. reflexivity.
Qed.

Lemma reindex_unique conts target :
  NoDup (map fst conts) -> exists T, reindex conts target = Returned T.
Proof.
  intros N. unfold reindex. apply has_duplicates_NoDup in N. rewrite N. simpl.
  destruct (list_eqb _ _); eauto.
Qed.

Lemma reindex_duplicates conts target :
  NoDup target -> target <> [] -> has_duplicates (map fst conts) = true ->
  reindex conts target = Raised ValueError.
Proof.
  intros N NE D. unfold reindex.
  destruct (list_eqb (map fst conts) target) eqn:E.
  - apply list_eqb_eq in E. subst target. apply has_duplicates_NoDup in N. congruence.
  - rewrite D. destruct target; [congruence | reflexivity].
Qed.

(* ------------------------------------------------------------------ *)
(** ** [contributions] *)

Section Contributions.

Variable route : string.
Variable data : dataframe.

Let df := filter (fun r => fw_lang r =? route) data.

Lemma in_route_rows r : In r df <-> In r data /\ fw_lang r = route.
Proof. unfold df. rewrite filter_In, String.eqb_eq. tauto. Qed.

Lemma grouped_means_index :
  map fst (grouped_means df) = map fst (group_keys df).
Proof. unfold grouped_means. rewrite map_map. reflexivity. Qed.

(** With one long name per stop, the groups are the observations that leave
    from the stop. *)
Lemma group_observations r :
  one_name_per_stop route data -> In r data -> fw_lang r = route ->
  filter (fun r' => key_eqb (row_key r') (row_key r)) df
  = observations route data (halt_kurz_von1 r).
Proof.
  intros One I E. unfold df, observations.
  assert (F : forall (f g : row -> bool) (l : list row),
             filter f (filter g l) = filter (fun x => g x && f x) l).
  { intros f g l. induction l as [|x t IH]; simpl; [reflexivity|].
    destruct (g x); simpl; [destruct (f x); rewrite IH |]; auto. }
  rewrite F. apply filter_ext_in. intros r' I'.
  destruct (String.eqb_spec (fw_lang r') route) as [E'|_]; [simpl | reflexivity].
  destruct (String.eqb_spec (halt_kurz_von1 r') (halt_kurz_von1 r)) as [V|V].
  - apply key_eqb_eq. unfold row_key. f_equal; [exact V|].
    apply One; assumption.
  - apply not_true_iff_false. intros K. apply key_eqb_eq in K.
    unfold row_key in K. congruence.
Qed.

Lemma index_unique :
  one_name_per_stop route data -> NoDup (map fst (grouped_means df)).
Proof.
  intros One. rewrite grouped_means_index.
  apply NoDup_map_NoDup_ForallPairs; [|apply group_keys_NoDup].
  intros k k' Hk Hk' E.
  apply group_keys_In in Hk, Hk'.
  destruct Hk as (r & I & <-), Hk' as (r' & I' & <-).
  apply in_route_rows in I, I'. unfold row_key in *. simpl in E.
  f_equal; [exact E|]. apply One; tauto.
Qed.

(** The row of an observed stop: its long name and the means of its
    observations. *)
Lemma lookup_row_observed r :
  one_name_per_stop route data -> In r data -> fw_lang r = route ->
  let g := observations route data (halt_kurz_von1 r) in
  lookup_row (grouped_means df) (halt_kurz_von1 r)
  = mkCont (Some (halt_lang r))
           (Some (mean (map holdup_stop g)))
           (Some (mean (map holdup_trajectory g)))
           (Some (mean (map total_holdup g))).
Proof.
  intros One I E g. unfold lookup_row.
  destruct (find _ (grouped_means df)) as [p|] eqn:F.
  - apply find_some in F. destruct F as (Ip & Ep). apply String.eqb_eq in Ep.
    unfold grouped_means in Ip. apply in_map_iff in Ip. destruct Ip as (k & <- & Ik).
    simpl in Ep. apply group_keys_In in Ik. destruct Ik as (r' & I' & <-).
    apply in_route_rows in I'. destruct I' as (I' & E').
    assert (K : row_key r' = row_key r).
    { unfold row_key in *. simpl in Ep. f_equal; [exact Ep | apply One; auto]. }
    rewrite K. simpl. rewrite (group_observations r One I E). reflexivity.
  - exfalso. pose proof (find_none _ _ F) as N.
    assert (Ik : In (row_key r) (group_keys df)).
    { apply group_keys_In. exists r. split; [apply in_route_rows; auto | reflexivity]. }
    specialize (N _ (in_map _ _ _ Ik)). simpl in N.
    rewrite String.eqb_refl in N. discriminate.
Qed.

(** A stop without observations has no row to offer. *)
Lemma lookup_row_unobserved s :
  observations route data s = [] -> lookup_row (grouped_means df) s = null_row.
Proof.
  intros O. unfold lookup_row.
  destruct (find _ (grouped_means df)) as [p|] eqn:F; [exfalso | reflexivity].
  apply find_some in F. destruct F as (Ip & Ep). apply String.eqb_eq in Ep.
  unfold grouped_means in Ip. apply in_map_iff in Ip. destruct Ip as (k & <- & Ik).
  simpl in Ep. apply group_keys_In in Ik. destruct Ik as (r & I & <-).
  apply in_route_rows in I. destruct I as (I & E).
  assert (In r (observations route data s)) as X.
  { unfold observations. apply filter_In. split; [exact I|].
    simpl in Ep. apply andb_true_iff. rewrite !String.eqb_eq. auto. }
  rewrite O in X. exact X.
Qed.

Lemma contributions_unfold fuel :
  contributions fuel route data
  = (stops_in_order <- stops_on_route fuel route data ;;
     reindex (grouped_means df) stops_in_order).
Proof. reflexivity. Qed.

End Contributions.

(** Every stop of a returned sequence has an observation leaving from it. *)
Lemma stops_on_route_observed fuel route data l s :
  stops_on_route fuel route data = Returned l -> In s l ->
  exists r, In r data /\ fw_lang r = route /\ halt_kurz_von1 r = s.
Proof.
  intros H I.
  destruct (stops_on_route_returned _ _ _ _ H) as (A & B & _ & _ & L & _).
  destruct (In_nth_error _ _ I) as (i & Hi).
  pose proof (linked_next _ _ _ _ _ _ L Hi) as E.
  unfold successor in E.
  destruct (rev _) as [|r t] eqn:R; [discriminate|].
  assert (X : In r (rev (filter (fun r => (fw_lang r =? route) && (halt_kurz_von1 r =? s)) data)))
    by (rewrite R; left; reflexivity).
  apply in_rev, filter_In in X. destruct X as (X & Y).
  apply andb_true_iff in Y. rewrite !String.eqb_eq in Y.
  exists r. tauto.
Qed.



(* ------------------------------------------------------------------ *)
(** ** [delay_along_route] *)

Lemma Qsum_additive (g : list row) :
  (forall r, In r g -> (total_holdup r == holdup_stop r + holdup_trajectory r)%Q) ->
  (Qsum (map total_holdup g)
   == Qsum (map holdup_stop g) + Qsum (map holdup_trajectory g))%Q.
Proof.
  induction g as [|r t IH]; intros H; simpl; [reflexivity|].
  rewrite (H r (or_introl eq_refl)), IH by (intros; apply H; right; assumption).
  ring.
Qed.

Lemma mean_additive (g : list row) :
  (forall r, In r g -> (total_holdup r == holdup_stop r + holdup_trajectory r)%Q) ->
  (mean (map total_holdup g)
   == mean (map holdup_stop g) + mean (map holdup_trajectory g))%Q.
Proof.
  intros H. unfold mean, Qdiv. rewrite !length_map, (Qsum_additive g H). ring.
Qed.

Lemma grouped_means_additive (df : list row) :
  (forall r, In r df -> (total_holdup r == holdup_stop r + holdup_trajectory r)%Q) ->
  Forall (fun p => row_additive (snd p)) (grouped_means df).
Proof.
  intros H. unfold grouped_means. apply Forall_map, Forall_forall. intros k _.
  unfold row_additive. simpl. apply mean_additive.
  intros r I. apply filter_In in I. apply H, I.
Qed.

Lemma lookup_row_additive conts s :
  Forall (fun p => row_additive (snd p)) conts -> row_additive (lookup_row conts s).
Proof.
  intros F. unfold lookup_row. destruct (find _ conts) as [p|] eqn:E.
  - apply find_some in E. rewrite Forall_forall in F. apply F, E.
  - exact I.
Qed.

Lemma reindex_additive conts target T :
  Forall (fun p => row_additive (snd p)) conts ->
  reindex conts target = Returned T ->
  Forall (fun p => row_additive (snd p)) T.
Proof.
  intros F. unfold reindex. destruct (list_eqb _ _).
  - intros H. injection H as <-. exact F.
  - destruct (_ && _); [discriminate|]. intros H. injection H as <-.
    apply Forall_map, Forall_forall. intros s _. simpl. apply lookup_row_additive, F.
Qed.

Lemma sum_cells_additive (T : list (string * cont_row)) :
  Forall (fun p => row_additive (snd p)) T ->
  (sum_cells (map (fun p => column 2 (snd p)) T)
   == sum_cells (map (fun p => column 0 (snd p)) T)
      + sum_cells (map (fun p => column 1 (snd p)) T))%Q.
Proof.
  induction 1 as [|[s c] t A F IH]; simpl in *; [reflexivity|].
  unfold row_additive in A. simpl in A.
  destruct (c_total_holdup c), (c_holdup_stop c), (c_holdup_trajectory c);
    try contradiction; [|exact IH].
  rewrite A, IH. ring.
Qed.

Lemma sample_rowwise : rowwise_total "A - C" sample.
Proof.
  intros r I _. simpl in I.
  repeat (destruct I as [<-|I]; [reflexivity|]). contradiction.
Qed.



Lemma sum_cells_some {A : Type} (f : A -> Q) (l : list A) :
  sum_cells (map (fun s => Some (f s)) l) = Qsum (map f l).
Proof. induction l as [|x t IH]; simpl; [|rewrite IH]; reflexivity. Qed.

(** With one long name per stop, the table of a returned sequence holds, for
    each stop, the means of the observations that leave from it. *)
Lemma contributions_means fuel route data l :
  stops_on_route fuel route data = Returned l ->
  one_name_per_stop route data ->
  exists T,
    contributions fuel route data = Returned T
    /\ map fst T = l
    /\ forall idx,
        map (fun p => column idx (snd p)) T
        = map (fun s => Some (mean (map (raw_column idx) (observations route data s)))) l.
Proof.
  intros H One.
  pose proof (stops_on_route_no_duplicates_aux _ _ _ _ H) as N.
  rewrite contributions_unfold, H. cbn [bind].
  destruct (reindex_unique _ l (index_unique route data One)) as (T & HT).
  exists T. split; [exact HT|].
  apply (reindex_returned _ _ _ N) in HT. subst T.
  split; [rewrite map_map; apply map_id|].
  intros idx. rewrite map_map. apply map_ext_in. intros s I. simpl.
  destruct (stops_on_route_observed _ _ _ _ _ H I) as (r & Ir & Er & <-).
  rewrite (lookup_row_observed route data r One Ir Er).
  destruct idx as [|[|idx]]; reflexivity.
Qed.

Lemma sample_one_name : one_name_per_stop "A - C" sample.
Proof.
  intros r r' I I' E E' V. simpl in I, I'.
  repeat (destruct I as [<-|I]; [|]); try contradiction;
    repeat (destruct I' as [<-|I']; [|]); try contradiction;
      try reflexivity; discriminate.
Qed.

Lemma contributions_returned fuel route data T :
  contributions fuel route data = Returned T ->
  stops_on_route fuel route data = Returned (map fst T).
Proof.
  intros C. rewrite contributions_unfold in C.
  destruct (stops_on_route fuel route data) as [l| |] eqn:H; cbn [bind] in C;
    try discriminate.
  apply (reindex_returned _ _ _ (stops_on_route_no_duplicates_aux _ _ _ _ H)) in C.
  subst T. rewrite map_map, map_id. reflexivity.
Qed.

(** C8: with [absolute=True], [delay_along_route] returns the sum of the
    absolute values of the cells of the table that [contributions] returns,
    missing cells skipped; with one long name per stop, that is the sum over
    the stops of the route of the absolute value of the stop's average
    holdup (mean first, absolute value second).  There is a route on which
    this is not the sum of the averages of the absolute values of the
    observations. *)
Theorem delay_along_route_absolute fuel route data which_holdup T :
  contributions fuel route data = Returned T ->
  let idx := holdup_index which_holdup in
  delay_along_route fuel route data which_holdup true
  = Returned (sum_cells (map (fun p => abs_cell (column idx (snd p))) T))
  /\ (one_name_per_stop route data ->
      delay_along_route fuel route data which_holdup true
      = Returned (mean_then_abs route data idx (map fst T)))
  /\ exists fuel' route' data' which' T',
      contributions fuel' route' data' = Returned T'
      /\ one_name_per_stop route' data'
      /\ ~ (mean_then_abs route' data' (holdup_index which') (map fst T')
            == abs_then_mean route' data' (holdup_index which') (map fst T'))%Q.
Proof.
  intros C idx. split; [|split].
  - unfold delay_along_route. rewrite C. cbn [bind]. rewrite map_map. reflexivity.
  - intros One. pose proof (contributions_returned _ _ _ _ C) as H.
    destruct (contributions_means _ _ _ _ H One) as (T' & C' & _ & M).
    unfold delay_along_route. rewrite C'. cbn [bind]. f_equal.
    rewrite M, map_map. unfold abs_cell. simpl option_map.
    apply (sum_cells_some
             (fun s => Qabs (mean (map (raw_column (holdup_index which_holdup))
                                       (observations route data s))))).
  - destruct (contributions_means 5 "A - C" sample ["A"; "B"] eq_refl sample_one_name)
      as (T' & C' & I & _).
    exists 5, "A - C", sample, "on_trajectory", T'.
    split; [exact C'|]. split; [exact sample_one_name|].
    rewrite I. vm_compute. discriminate.
Qed.

Lemma delay_along_route_absolute_witness :
  exists T,
    delay_along_route 5 "A - C" sample "total" true
    = Returned (sum_cells (map (fun p : string * cont_row =>
                                  abs_cell (column 2 (snd p))) T))
    /\ delay_along_route 5 "A - C" sample "total" true
       = Returned (mean_then_abs "A - C" sample 2 ["A"; "B"]).
Proof.
  destruct (contributions_means 5 "A - C" sample ["A"; "B"] eq_refl sample_one_name)
    as (T & C & I & _).
  exists T.
  destruct (delay_along_route_absolute 5 "A - C" sample "total" T C) as (A & B & _).
  split; [exact A|]. rewrite <- I. exact (B sample_one_name).
Defined.

(* ------------------------------------------------------------------ *)
(** ** [measure_of_delay_line] *)

(** The mean of a one-element list of measures is the measure. *)
Lemma single_measure v : float_eq (fdiv (py_sum ([] ++ [v])) (List.length ([] ++ [v]))) v.
Proof.
  destruct v as [q| | |]; simpl; auto.
  unfold Qdiv. change (inject_Z 1) with 1%Q. field.
Qed.

Lemma func_defs_measure_of_delay_line fuel line data which_holdup absolute per_stop :
  FuncDefs.measure_of_delay_line data fuel line which_holdup absolute per_stop
  = measure_of_delay_line fuel line data which_holdup absolute per_stop.
Proof. reflexivity. Qed.

Lemma unique_In v l : In v (unique l) <-> In v l.
Proof.
  induction l as [|x t IH]; simpl; [tauto|].
  rewrite filter_In, IH. split.
  - intros [H|[H _]]; auto.
  - intros [H|H]; [auto|].
    destruct (String.eqb_spec v x) as [->|N]; [left; reflexivity | right; auto].
Qed.

Lemma insert_by_count_In x p l : In x (insert_by_count p l) <-> x = p \/ In x l.
Proof.
  induction l as [|q t IH]; simpl; [intuition congruence|].
  destruct (snd q <? snd p)%nat; simpl; [intuition congruence|].
  rewrite IH. intuition congruence.
Qed.

Lemma sorted_by_count_In x ps : In x (fold_right insert_by_count [] ps) <-> In x ps.
Proof.
  induction ps as [|p t IH]; simpl; [tauto|].
  rewrite insert_by_count_In, IH. intuition congruence.
Qed.

Lemma insert_by_count_head_max p l : head_max l -> head_max (insert_by_count p l).
Proof.
  destruct l as [|q t]; simpl; [tauto|]. intros H.
  destruct (Nat.ltb_spec (snd q) (snd p)) as [L|L]; simpl.
  - intros x [<-|I]; [lia | specialize (H x I); lia].
  - intros x I. apply insert_by_count_In in I. destruct I as [->|I]; [lia | auto].
Qed.

Lemma value_counts_head_max l : head_max (value_counts l).
Proof.
  unfold value_counts. induction (map _ (unique l)) as [|p t IH]; simpl; [exact I|].
  apply insert_by_count_head_max, IH.
Qed.

(** The first main route of a line is a most frequent route label of the
    line. *)
Lemma main_routes_most_frequent line data route rest :
  main_routes_of_line line data = route :: rest ->
  let labels := map fw_lang (filter (fun r => (linie r =? line)%Z) data) in
  forall v, count v labels <= count route labels.
Proof.
  intros M labels v. unfold main_routes_of_line in M. cbv zeta in M. fold labels in M.
  pose proof (value_counts_head_max labels) as HM.
  assert (In_vc : forall x, In x (value_counts labels)
                            <-> exists w, In w labels /\ x = (w, count w labels)).
  { intros x. unfold value_counts. rewrite sorted_by_count_In, in_map_iff.
    split; intros (w & A & B).
    - exists w. split; [apply unique_In, B | congruence].
    - exists w. split; [congruence | apply unique_In, A]. }
  destruct (value_counts labels) as [|h t] eqn:V; [discriminate|].
  assert (Hh : h = (route, count route labels)).
  { destruct (proj1 (In_vc h) (or_introl eq_refl)) as (w & _ & ->).
    simpl in M. destruct t; simpl in M; injection M as <-; reflexivity. }
  destruct (existsb (fun y => y =? v) labels) eqn:E.
  - apply existsb_exists in E. destruct E as (y & Iy & Ey).
    apply String.eqb_eq in Ey. subst y.
    destruct (proj2 (In_vc (v, count v labels))) as [X|X]; [eauto | |].
    + rewrite Hh in X. injection X as -> _. lia.
    + specialize (HM _ X). rewrite Hh in HM. exact HM.
  - unfold count at 1. rewrite filter_nothing; [simpl; lia|].
    intros y Iy. apply not_true_iff_false. intros Y.
    rewrite <- not_true_iff_false in E. apply E, existsb_exists. eauto.
Qed.

(** The number of stops of a route is the length of its sequence of stops. *)
Lemma number_of_stops_length fuel route data l den :
  stops_on_route fuel route data = Returned l ->
  number_of_stops fuel route data = Returned den ->
  den = List.length l.
Proof.
  intros H. unfold number_of_stops.
  destruct (contributions fuel route data) as [T| |] eqn:C; cbn [bind]; try discriminate.
  intros D. injection D as <-.
  pose proof (contributions_returned _ _ _ _ C) as H'. rewrite H in H'.
  injection H' as ->. symmetry. apply length_map.
Qed.

Lemma sample_routes : main_routes_of_line 4 sample = ["A - C"; "C - A"].
Proof. reflexivity. Qed.



(* ------------------------------------------------------------------ *)
(** ** [freq_major_delays_route] *)

Lemma Qltb_lt a b : Qltb a b = true <-> (a < b)%Q.
Proof.
  unfold Qltb. rewrite negb_true_iff, <- not_true_iff_false, Qle_bool_iff.
  split; [apply Qnot_le_lt | apply Qlt_not_le].
Qed.

(** The two-sided test of the code is a test on the absolute value. *)
Lemma is_major_exceeds what threshold r :
  is_major what threshold r = exceeds what threshold (delay_after_trajectory r).
Proof.
  unfold is_major, exceeds. destruct (what =? "deviation"); [|reflexivity].
  apply eq_true_iff_eq. rewrite orb_true_iff, !Qltb_lt.
  apply (Qabs_case (delay_after_trajectory r)); intros; split; intros; lra.
Qed.

Lemma filter_filter_and {A : Type} (f g : A -> bool) (l : list A) :
  filter f (filter g l) = filter (fun x => g x && f x) l.
Proof.
  induction l as [|x t IH]; simpl; [reflexivity|].
  destruct (g x); simpl; [destruct (f x); rewrite IH |]; auto.
Qed.

Lemma filter_length_bound {A : Type} (f : A -> bool) (l : list A) :
  List.length (filter f l) <= List.length l.
Proof.
  induction l as [|x t IH]; simpl; [lia|]. destruct (f x); simpl; lia.
Qed.

Lemma getitem_neg_2 (l : list string) p :
  nth_error (rev l) 1 = Some p -> getitem_neg l 2 = Returned p.
Proof.
  rewrite nth_error_rev. unfold getitem_neg, getitem.
  destruct (Nat.ltb_spec 1 (List.length l)) as [L|L]; [|discriminate].
  destruct (Nat.ltb_spec (List.length l) 2) as [L'|_]; [lia|]. simpl.
  intros ->. reflexivity.
Qed.

(** The counts behind the three results, for a route of at least two stops
    whose second-to-last stop is [p]. *)
Lemma freq_major_delays_route_eq fuel route data cutoff (per_stop : bool) what l p :
  stops_on_route fuel route data = Returned l ->
  nth_error (rev l) 1 = Some p ->
  let threshold :=
      if per_stop then (cutoff * inject_Z (Z.of_nat (List.length l)))%Q else cutoff in
  let seen := observations_at route data p in
  let majors := filter (fun r => exceeds what threshold (delay_after_trajectory r)) seen in
  freq_major_delays_route fuel route data cutoff per_stop what
  = (ratio <- py_div (List.length majors) (List.length seen) ;;
     Returned (List.length seen, List.length majors, py_round2 (ratio * 100))).
Proof.
  intros H P. cbv zeta.
  unfold freq_major_delays_route. rewrite H. cbn [bind].
  rewrite (getitem_neg_2 _ _ P). cbn [bind].
  assert (E : filter (fun r => halt_kurz r =? p) (filter (fun r => fw_lang r =? route) data)
              = observations_at route data p) by apply filter_filter_and.
  rewrite E, (filter_ext _ _ (is_major_exceeds what _)). reflexivity.
Qed.

Lemma round_half_even_close x :
  (Qabs (inject_Z (round_half_even x) - x) <= 1 # 2)%Q.
Proof.
  unfold round_half_even.
  pose proof (Qfloor_le x) as L. pose proof (Qlt_floor x) as U.
  rewrite inject_Z_plus in U. change (inject_Z 1) with 1%Q in U.
  apply Qabs_Qle_condition.
  destruct (Qcompare (x - inject_Z (Qfloor x)) (1 # 2)) eqn:C.
  - apply Qeq_alt in C.
    destruct (Z.even (Qfloor x)); [|rewrite inject_Z_plus; change (inject_Z 1) with 1%Q];
      lra.
  - apply Qlt_alt in C. lra.
  - apply Qgt_alt in C. rewrite inject_Z_plus. change (inject_Z 1) with 1%Q. lra.
Qed.

(** Rounding to two decimals moves a value by at most half a hundredth. *)
Lemma py_round2_close x : (Qabs (py_round2 x - x) <= 1 # 200)%Q.
Proof.
  unfold py_round2. pose proof (round_half_even_close (x * 100)) as H.
  apply Qabs_Qle_condition in H. apply Qabs_Qle_condition.
  unfold Qdiv. change (/ 100)%Q with (1 # 100)%Q. lra.
Qed.

Lemma py_round2_comp x y : (x == y)%Q -> py_round2 x = py_round2 y.
Proof.
  intros E. unfold py_round2, round_half_even.
  assert (F : Qfloor (x * 100) = Qfloor (y * 100)) by (rewrite E; reflexivity).
  rewrite F.
  assert (C : ((x * 100 - inject_Z (Qfloor (y * 100))) ?= (1 # 2))%Q
              = ((y * 100 - inject_Z (Qfloor (y * 100))) ?= (1 # 2))%Q)
    by (rewrite E; reflexivity).
  rewrite C. reflexivity.
Qed.

Lemma exceeds_spec what threshold d :
  exceeds what threshold d = true
  <-> if what =? "deviation" then (threshold < Qabs d)%Q else (threshold < d)%Q.
Proof. unfold exceeds. destruct (what =? "deviation"); apply Qltb_lt. Qed.

(** A route of fewer than two stops has no second-to-last stop to look at. *)
Lemma freq_major_delays_route_short fuel route data cutoff per_stop what l :
  stops_on_route fuel route data = Returned l -> List.length l < 2 ->
  freq_major_delays_route fuel route data cutoff per_stop what = Raised IndexError.
Proof.
  intros H L. unfold freq_major_delays_route. rewrite H. cbn [bind].
  unfold getitem_neg. destruct (Nat.ltb_spec (List.length l) 2); [reflexivity | lia].
Qed.






(** C7, the code misses the stop by one: [stops_on_route] leaves the final
    stop out, so on the route A -> B -> C, whose second-to-last stop is B,
    the entry [stops_on_this_route[-2]] is A.  With cutoff 3 per stop
    (threshold 6) the call returns the counts of the observations taken at
    A, one major delay among three, where those taken at B hold two.  On a
    route with a single stop before the final one there is no such entry
    and the call raises [IndexError]. *)
Theorem freq_major_delays_route_off_by_one :
  stops_on_route 5 "A - C" sample = Returned ["A"; "B"]
  /\ successor "A - C" sample "B" = nth_error (split "A - C") 2
  /\ freq_major_delays_route 5 "A - C" sample 3 true "delay"
     = Returned (3, 1, (3333 # 100)%Q)
  /\ major_counts "A - C" sample "A" 6 "delay" = (3, 1)
  /\ major_counts "A - C" sample "B" 6 "delay" = (3, 2)
  /\ stops_on_route 5 "X1 - Y" twins = Returned ["X1"]
  /\ freq_major_delays_route 5 "X1 - Y" twins 0 false "delay" = Raised IndexError.
Proof.
  split; [reflexivity|].
  split; [reflexivity|].
  split; [vm_compute; reflexivity|].
  split; [reflexivity|].
  split; [reflexivity|].
  split; [reflexivity|].
  apply (freq_major_delays_route_short 5 "X1 - Y" twins 0%Q false "delay" ["X1"]);
    [reflexivity | simpl; lia].
Qed.

(* ------------------------------------------------------------------ *)
(** ** [convert_short_to_long] *)

Lemma occurs_step pat s :
  occurs pat s = prefix pat s || match s with
                                 | EmptyString => false
                                 | String _ t => occurs pat t
                                 end.
Proof. destruct s; reflexivity. Qed.

Lemma replace_no_occurrence pat s :
  occurs pat s = false -> replace_from pat "" 0 s = s.
Proof.
  induction s as [|c t IH]; [reflexivity|]. intros O.
  rewrite occurs_step in O. apply orb_false_iff in O. destruct O as (P & O).
  cbn [replace_from]. rewrite P, (IH O). reflexivity.
Qed.

Lemma replace_skip pat repl a rest :
  replace_from pat repl (String.length a) (a ++ rest) = replace_from pat repl 0 rest.
Proof.
  induction a as [|c a IH]; simpl; [destruct rest; reflexivity | exact IH].
Qed.

Lemma prefix_append p rest : prefix p (p ++ rest) = true.
Proof.
  induction p as [|c p IH]; simpl; [destruct rest; reflexivity|].
  destruct (ascii_dec c c); [exact IH | congruence].
Qed.

(** An occurrence at the very start is removed and the scan goes on after
    it. *)
Lemma replace_prefix pat rest :
  pat <> "" ->
  replace_from pat "" 0 (pat ++ rest) = replace_from pat "" 0 rest.
Proof.
  destruct pat as [|c p]; [congruence|]. intros _.
  change (String c p ++ rest)%string with (String c (p ++ rest)%string).
  cbn [replace_from].
  change (String c (p ++ rest)%string) with (String c p ++ rest)%string.
  rewrite prefix_append.
  replace (String.length (String c p) - 1) with (String.length p) by (simpl; lia).
  apply replace_skip.
Qed.

Lemma prefix_app_same a b s : prefix (a ++ b) (a ++ s) = prefix b s.
Proof.
  induction a as [|c a IH]; [reflexivity|]. cbn [String.append prefix].
  destruct (ascii_dec c c); [exact IH | congruence].
Qed.

Lemma prefix_head_neq c p d t : c <> d -> prefix (String c p) (String d t) = false.
Proof. intros N. cbn [prefix]. destruct (ascii_dec c d); [congruence | reflexivity]. Qed.

Lemma prefix_shorter p q s : prefix (p ++ q) s = true -> prefix p s = true.
Proof.
  revert s. induction p as [|c p IH]; intros s; [destruct s; reflexivity|].
  destruct s as [|d s]; simpl; [discriminate|].
  destruct (ascii_dec c d); [apply IH | discriminate].
Qed.

Lemma occurs_shorter p q s : occurs p s = false -> occurs (p ++ q) s = false.
Proof.
  assert (X : forall t, prefix p t = false -> prefix (p ++ q) t = false).
  { intros t P. apply not_true_iff_false. intros Y.
    apply prefix_shorter in Y. congruence. }
  induction s as [|d s IH].
  - rewrite (occurs_step p ""), (occurs_step (p ++ q) ""), !orb_false_iff.
    intros (P & _). split; [apply X, P | reflexivity].
  - rewrite (occurs_step p (String d s)), (occurs_step (p ++ q) (String d s)),
      !orb_false_iff.
    intros (P & O). split; [apply X, P | apply IH, O].
Qed.

Lemma occurs_prefix p s : occurs p s = false -> prefix p s = false.
Proof. rewrite occurs_step, orb_false_iff. tauto. Qed.

Section StripCity.

Variable rest : string.
Hypothesis clean : occurs zurich_comma rest = false.

Lemma clean_comma_space : occurs zurich_comma_space rest = false.
Proof. exact (occurs_shorter zurich_comma " " rest clean). Qed.

Lemma strip_city_plain : strip_city rest = rest.
Proof.
  unfold strip_city, str_replace.
  rewrite (replace_no_occurrence _ _ clean_comma_space).
  apply replace_no_occurrence, clean.
Qed.

Lemma strip_city_comma_space : strip_city (zurich_comma_space ++ rest) = rest.
Proof.
  unfold strip_city, str_replace.
  rewrite replace_prefix by (unfold zurich_comma_space; discriminate).
  exact strip_city_plain.
Qed.

Lemma comma_space_not_in_comma :
  prefix " " rest = false ->
  occurs zurich_comma_space (zurich_comma ++ rest) = false.
Proof.
  intros NS. rewrite occurs_step. apply orb_false_iff. split.
  - change zurich_comma_space with (zurich_comma ++ " ")%string.
    rewrite prefix_app_same. exact NS.
  - unfold zurich_comma, zurich_comma_space. cbn [String.append].
    repeat (rewrite occurs_step; rewrite prefix_head_neq by discriminate; cbn [orb]).
    exact clean_comma_space.
Qed.

Lemma strip_city_comma :
  prefix " " rest = false -> strip_city (zurich_comma ++ rest) = rest.
Proof.
  intros NS. unfold strip_city, str_replace.
  rewrite (replace_no_occurrence _ _ (comma_space_not_in_comma NS)).
  rewrite replace_prefix by (unfold zurich_comma; discriminate).
  apply replace_no_occurrence, clean.
Qed.

Lemma clean_no_prefix : has_city_prefix rest = false.
Proof.
  unfold has_city_prefix.
  rewrite (occurs_prefix _ _ clean), (occurs_prefix _ _ clean_comma_space). reflexivity.
Qed.

End StripCity.

Lemma drop_duplicates_values_incl seen s p :
  In p (drop_duplicates_values seen s) -> In p s.
Proof.
  revert seen. induction s as [|q t IH]; intros seen; simpl; [tauto|].
  destruct (existsb _ seen); simpl; [right; eauto|].
  intros [E|I]; [left; exact E | right; eauto].
Qed.

(** What is left under a label after [drop_duplicates], when the label and
    the value [n] go together on every row: the first row that holds [n],
    unless [n] was seen before. *)
Lemma drop_duplicates_values_label name n s :
  (forall p, In p s -> fst p = name <-> snd p = n) ->
  forall seen,
    filter (fun p => fst p =? name) (drop_duplicates_values seen s)
    = if existsb (fun v => v =? n) seen then []
      else if existsb (fun p => snd p =? n) s then [(name, n)] else [].
Proof.
  induction s as [|p t IH]; intros H seen.
  - simpl. destruct (existsb _ seen); reflexivity.
  - assert (Ht : forall q, In q t -> fst q = name <-> snd q = n)
      by (intros q I; apply H; right; exact I).
    pose proof (H p (or_introl eq_refl)) as Hp.
    cbn [drop_duplicates_values existsb].
    destruct (existsb (fun v => v =? snd p) seen) eqn:D.
    + rewrite (IH Ht). destruct (existsb (fun v => v =? n) seen) eqn:En; [reflexivity|].
      destruct (String.eqb_spec (snd p) n) as [E|_]; [|reflexivity].
      rewrite E in D. congruence.
    + cbn [filter]. destruct (String.eqb_spec (fst p) name) as [E|N].
      * pose proof (proj1 Hp E) as V. rewrite (IH Ht). cbn [existsb].
        rewrite V in D |- *. rewrite String.eqb_refl, D. cbn [orb].
        destruct p as [a b]. simpl in E, V. subst. reflexivity.
      * assert (V : snd p <> n) by (intros V; apply N, Hp, V).
        rewrite (IH Ht). cbn [existsb].
        apply String.eqb_neq in V. rewrite V. reflexivity.
Qed.

Lemma convert_short_to_long_table name data :
  convert_short_to_long name data
  = series_loc (drop_duplicates_values
                  [] (map (fun r => (halt_kurz r, strip_city (halt_lang r))) data))
               name.
Proof. unfold convert_short_to_long. rewrite !map_map. reflexivity. Qed.

(** C9 (as amended): [convert_short_to_long] returns the long name of a
    stop with every occurrence of "Zürich, " and then every occurrence of
    "Zürich," removed, provided that all rows of the code give that name and
    no row of another code gives it; for a code absent from the table it
    raises [KeyError].  The variant over the stop table does so for a code
    that labels exactly one row.  When the long name is "Zürich, " or
    "Zürich," (not followed by a space) before a text without "Zürich,", or
    such a text alone, the result is that text, and no city prefix is left
    at its start. *)
Theorem convert_short_to_long_strips name data :
  (forall r, In r data -> halt_kurz r = name ->
             (forall r', In r' data ->
                         halt_kurz r' = name
                         <-> strip_city (halt_lang r') = strip_city (halt_lang r)) ->
             convert_short_to_long name data
             = Returned (Scalar (strip_city (halt_lang r))))
  /\ ((forall r, In r data -> halt_kurz r <> name) ->
      convert_short_to_long name data = Raised (KeyError name))
  /\ (forall stops r,
        filter (fun r' => FuncDefs.s_halt_kurz r' =? name) stops = [r] ->
        FuncDefs.convert_short_to_long name stops
        = Returned (Scalar (strip_city (FuncDefs.s_halt_lang r))))
  /\ (forall stops,
        filter (fun r' => FuncDefs.s_halt_kurz r' =? name) stops = [] ->
        FuncDefs.convert_short_to_long name stops = Raised (KeyError name))
  /\ (forall rest,
        occurs zurich_comma rest = false ->
        strip_city rest = rest
        /\ strip_city (zurich_comma_space ++ rest) = rest
        /\ (prefix " " rest = false -> strip_city (zurich_comma ++ rest) = rest)
        /\ has_city_prefix rest = false).
Proof.
  repeat split.
  - intros r I E H. rewrite convert_short_to_long_table. unfold series_loc.
    rewrite (drop_duplicates_values_label name (strip_city (halt_lang r))).
    + cbn [existsb].
      assert (X : existsb (fun p : string * string => snd p =? strip_city (halt_lang r))
                          (map (fun r => (halt_kurz r, strip_city (halt_lang r))) data)
                  = true).
      { apply existsb_exists. exists (halt_kurz r, strip_city (halt_lang r)).
        split; [apply (in_map (fun r => (halt_kurz r, strip_city (halt_lang r)))), I|].
        apply String.eqb_refl. }
      rewrite X. reflexivity.
    + intros p Ip. apply in_map_iff in Ip. destruct Ip as (r' & <- & I'). simpl.
      apply H, I'.
  - intros H. rewrite convert_short_to_long_table. unfold series_loc.
    rewrite filter_nothing; [reflexivity|].
    intros p Ip. apply drop_duplicates_values_incl, in_map_iff in Ip.
    destruct Ip as (r & <- & I). simpl. apply String.eqb_neq, H, I.
  - intros stops r F. unfold FuncDefs.convert_short_to_long, series_loc.
    rewrite map_map, filter_map_swap. simpl. rewrite F. reflexivity.
  - intros stops F. unfold FuncDefs.convert_short_to_long, series_loc.
    rewrite map_map, filter_map_swap. simpl. rewrite F. reflexivity.
  - apply strip_city_plain. assumption.
  - apply strip_city_comma_space. assumption.
  - apply strip_city_comma. assumption.
  - apply clean_no_prefix. assumption.
Qed.

Lemma convert_short_to_long_strips_witness :
  convert_short_to_long "A" sample = Returned (Scalar "Alpha")
  /\ convert_short_to_long "Q" sample = Raised (KeyError "Q").
Proof.
  split.
  - apply (proj1 (convert_short_to_long_strips "A" sample)
                 (obs 4 "A - C" "A" "Zürich, Alpha" "B" 2 3 5)).
    + left. reflexivity.
    + reflexivity.
    + intros r' I. simpl in I.
      repeat (destruct I as [<-|I]; [split; intros E; (reflexivity || discriminate E)|]).
      contradiction.
  - apply (proj1 (proj2 (convert_short_to_long_strips "Q" sample))).
    intros r I. simpl in I.
    repeat (destruct I as [<-|I]; [discriminate|]). contradiction.
Defined.

(** C9, the claim as stated fails: a code that is in the table but shares
    its long name with an earlier code is not found; and a name in which
    removing "Zürich," brings another "Zürich," together keeps that prefix. *)
Lemma convert_short_to_long_fails :
  (In "X2" (map halt_kurz twins)
   /\ convert_short_to_long "X2" twins = Raised (KeyError "X2"))
  /\ (In "N" (map halt_kurz nested)
      /\ convert_short_to_long "N" nested = Returned (Scalar "Zürich,Nord")
      /\ has_city_prefix "Zürich,Nord" = true).
Proof.
  split; [split|split; [|split]].
  - simpl. auto.
  - reflexivity.
  - simpl. auto.
  - reflexivity.
  - reflexivity.
Qed.

(* ================================================================== *)
(** * Further properties of the helpers *)


(* ------------------------------------------------------------------ *)
(** ** [main_routes_of_line] *)

Lemma unique_NoDup l : NoDup (unique l).
Proof.
  induction l as [|x t IH]; simpl; constructor.
  - rewrite filter_In, String.eqb_refl. intros [_ H]. discriminate.
  - apply NoDup_filter, IH.
Qed.

Lemma insert_by_count_perm p l : Permutation (p :: l) (insert_by_count p l).
Proof.
  induction l as [|q t IH]; simpl; [reflexivity|].
  destruct (snd q <? snd p)%nat; [reflexivity|].
  rewrite perm_swap. apply perm_skip, IH.
Qed.

Lemma sorted_by_count_perm ps : Permutation ps (fold_right insert_by_count [] ps).
Proof.
  induction ps as [|p t IH]; simpl; [constructor|].
  rewrite <- insert_by_count_perm. apply perm_skip, IH.
Qed.

Lemma insert_by_count_sorted p l :
  StronglySorted count_ge l -> StronglySorted count_ge (insert_by_count p l).
Proof.
  induction 1 as [|q t S IH F]; simpl; [repeat constructor|].
  destruct (Nat.ltb_spec (snd q) (snd p)) as [L|L].
  - constructor; [constructor; assumption|].
    constructor; [unfold count_ge; lia|].
    rewrite Forall_forall in F |- *. intros x I. specialize (F x I).
    unfold count_ge in *. lia.
  - constructor; [exact IH|].
    rewrite Forall_forall in F |- *. intros x I.
    apply insert_by_count_In in I. destruct I as [->|I]; [exact L | apply F, I].
Qed.

Lemma value_counts_sorted l : StronglySorted count_ge (value_counts l).
Proof.
  unfold value_counts. induction (map _ (unique l)) as [|p t IH]; simpl; [constructor|].
  apply insert_by_count_sorted, IH.
Qed.

Lemma value_counts_labels l : Permutation (unique l) (map fst (value_counts l)).
Proof.
  unfold value_counts. rewrite <- sorted_by_count_perm, map_map. simpl.
  rewrite map_id. reflexivity.
Qed.

Lemma value_counts_In l x :
  In x (value_counts l) <-> In (fst x) l /\ snd x = count (fst x) l.
Proof.
  unfold value_counts. rewrite sorted_by_count_In, in_map_iff. split.
  - intros (w & <- & I). simpl. split; [apply unique_In, I | reflexivity].
  - intros (I & E). exists (fst x). split; [|apply unique_In, I].
    destruct x; simpl in *; congruence.
Qed.

Lemma sorted_split (l1 l2 : list (string * nat)) a b :
  StronglySorted count_ge (l1 ++ l2) -> In a l1 -> In b l2 -> count_ge a b.
Proof.
  induction l1 as [|x t IH]; simpl; [tauto|]. intros S [<-|I] Ib.
  - apply StronglySorted_inv in S. destruct S as (_ & F).
    rewrite Forall_forall in F. apply F, in_or_app. right. exact Ib.
  - apply StronglySorted_inv in S. apply IH; tauto.
Qed.


(* ------------------------------------------------------------------ *)
(** ** A line without observations *)

Lemma main_routes_no_rows line data :
  (forall r, In r data -> linie r <> line) -> main_routes_of_line line data = [].
Proof.
  intros H. unfold main_routes_of_line.
  rewrite filter_nothing; [reflexivity|].
  intros r I. apply Z.eqb_neq, H, I.
Qed.

(** X4: for a line that no observation carries, [measure_of_delay_line]
    returns [None] (the loop body never runs, nothing is raised), so
    [table_lines] shows a missing delay and deviation for it;
    [major_contributions_line] raises [IndexError] in either direction, and
    [freq_major_delays_line] raises [ValueError] on unpacking the routes. *)
Theorem unknown_line fuel line data :
  (forall r, In r data -> linie r <> line) ->
  (forall which_holdup absolute per_stop,
      measure_of_delay_line fuel line data which_holdup absolute per_stop
      = Returned None)
  /\ (forall which_holdup per_stop,
         table_lines fuel [line] data which_holdup per_stop
         = Returned [(line, (None, None))])
  /\ (forall cutoff reverse,
         major_contributions_line fuel line data cutoff reverse = Raised IndexError)
  /\ (forall cutoff per_stop what,
         freq_major_delays_line fuel line data cutoff per_stop what
         = Raised ValueError).
Proof.
  intros H. pose proof (main_routes_no_rows line data H) as M.
  assert (N : forall which_holdup absolute per_stop,
             measure_of_delay_line fuel line data which_holdup absolute per_stop
             = Returned None)
    by (intros; unfold measure_of_delay_line; rewrite M; reflexivity).
  split; [exact N|]. split.
  - intros wh ps. unfold table_lines. cbn [table_lines_loop].
    rewrite !N. reflexivity.
  - split.
    + intros cutoff reverse. unfold major_contributions_line. rewrite M.
      destruct reverse; reflexivity.
    + intros cutoff ps what. unfold freq_major_delays_line. rewrite M. reflexivity.
Qed.

Lemma unknown_line_witness :
  measure_of_delay_line 5 7 sample "total" false true = Returned None
  /\ freq_major_delays_line 5 7 sample 1 true "delay" = Raised ValueError.
Proof.
  assert (H : forall r, In r sample -> linie r <> 7%Z).
  { intros r I. simpl in I.
    repeat (destruct I as [<-|I]; [discriminate|]). contradiction. }
  destruct (unknown_line 5 7%Z sample H) as (A & _ & _ & D).
  split; [apply A | apply D].
Defined.

(* ------------------------------------------------------------------ *)
(** ** A route label with equal end points *)

Lemma stops_on_route_equal_ends fuel route data A :
  nth_error (split route) 0 = Some A ->
  nth_error (split route) 2 = Some A ->
  stops_on_route fuel route data = Returned [].
Proof.
  intros H0 H2. rewrite (stops_on_route_tokens _ _ _ A A H0 H2).
  destruct fuel; simpl; rewrite String.eqb_refl; reflexivity.
Qed.

Lemma reindex_nothing conts : reindex conts [] = Returned [].
Proof.
  unfold reindex. destruct (list_eqb (map fst conts) []) eqn:E.
  - apply list_eqb_eq in E. destruct conts; [reflexivity | discriminate].
  - rewrite andb_false_r. reflexivity.
Qed.



(* ------------------------------------------------------------------ *)
(** ** Delay and deviation along a route *)

Lemma sum_cells_abs (l : list (option Q)) :
  (Qabs (sum_cells l) <= sum_cells (map abs_cell l))%Q.
Proof.
  induction l as [|[q|] t IH]; simpl; [discriminate | | exact IH].
  eapply Qle_trans; [apply Qabs_triangle|]. apply Qplus_le_r, IH.
Qed.

(** X6: the deviation of a route is never below the size of its delay: when
    [delay_along_route] returns [d] with [absolute=False] it returns with
    [absolute=True] a value [v] with [|d| <= v] (the two calls fail
    alike). *)
Theorem delay_along_route_deviation_bound fuel route data which_holdup d :
  delay_along_route fuel route data which_holdup false = Returned d ->
  exists v, delay_along_route fuel route data which_holdup true = Returned v
            /\ (Qabs d <= v)%Q.
Proof.
  unfold delay_along_route.
  destruct (contributions fuel route data) as [T| |]; cbn [bind]; try discriminate.
  intros H. injection H as <-. eexists. split; [reflexivity|]. apply sum_cells_abs.
Qed.

Lemma delay_along_route_deviation_bound_witness :
  exists v, delay_along_route 5 "A - C" sample "on_trajectory" true = Returned v
            /\ (Qabs (0 # 9) <= v)%Q.
Proof.
  exact (delay_along_route_deviation_bound 5 "A - C" sample "on_trajectory" (0 # 9)
                                           eq_refl).
Defined.

(* ------------------------------------------------------------------ *)
(** ** The cells of [contributions] *)

Lemma grouped_means_full df p : In p (grouped_means df) -> full_row (snd p).
Proof.
  unfold grouped_means. intros I. apply in_map_iff in I.
  destruct I as (k & <- & _). simpl. unfold full_row. eauto.
Qed.

Lemma lookup_row_found route data s :
  observations route data s <> [] ->
  In (lookup_row (grouped_means (filter (fun r => fw_lang r =? route) data)) s)
     (map snd (grouped_means (filter (fun r => fw_lang r =? route) data))).
Proof.
  intros O. unfold lookup_row.
  destruct (find _ (grouped_means _)) as [p|] eqn:F.
  - apply find_some in F. apply in_map, F.
  - exfalso. apply O. unfold observations.
    apply filter_nothing. intros r I.
    apply not_true_iff_false. intros Y. apply andb_true_iff in Y.
    destruct Y as (Y1 & Y2). apply String.eqb_eq in Y1, Y2.
    pose proof (find_none _ _ F) as N.
    assert (Ik : In (row_key r) (group_keys (filter (fun r => fw_lang r =? route) data))).
    { apply group_keys_In. exists r. split; [|reflexivity].
      apply in_route_rows. auto. }
    unfold grouped_means in N.
    specialize (N _ (in_map _ _ _ Ik)). simpl in N.
    rewrite Y2, String.eqb_refl in N. discriminate.
Qed.



(* ------------------------------------------------------------------ *)
(** ** [major_contributions] *)

Lemma major_stops_filter (g : string -> Q) cutoff (T : list (string * cont_row)) :
  forall l,
    map fst T = l ->
    map (fun p => c_total_holdup (snd p)) T = map (fun s => Some (g s)) l ->
    map fst (filter (fun p => cell_gt (c_total_holdup (snd p)) cutoff) T)
    = filter (fun s => Qltb cutoff (g s)) l.
Proof.
  induction T as [|[s c] t IH]; intros l E M; subst l; [reflexivity|].
  simpl in M. injection M as Ec M. simpl. rewrite Ec. simpl.
  destruct (Qltb cutoff (g s)); simpl; [f_equal|]; apply IH; auto.
Qed.

(** X8: with one long name per stop, [major_contributions] lists, in route
    order, exactly the stops of the route whose average total holdup over
    the observations leaving from the stop exceeds the cutoff. *)
Theorem major_contributions_stops fuel route data cutoff l :
  stops_on_route fuel route data = Returned l ->
  one_name_per_stop route data ->
  exists M,
    major_contributions fuel route data cutoff = Returned M
    /\ map fst M
       = filter (fun s => Qltb cutoff
                               (mean (map total_holdup (observations route data s)))) l.
Proof.
  intros H One.
  destruct (contributions_means _ _ _ _ H One) as (T & C & I & M).
  unfold major_contributions. rewrite C. cbn [bind].
  eexists. split; [reflexivity|].
  rewrite map_map. cbn [fst].
  change (map (fun x : string * cont_row => fst x)
              (filter (fun p => cell_gt (c_total_holdup (snd p)) cutoff) T))
    with (map fst (filter (fun p : string * cont_row =>
                             cell_gt (c_total_holdup (snd p)) cutoff) T)).
  apply (major_stops_filter
           (fun s => mean (map total_holdup (observations route data s))));
    [exact I | exact (M 2)].
Qed.

Lemma major_contributions_stops_witness :
  exists M,
    major_contributions 5 "A - C" sample 1 = Returned M
    /\ map fst M = ["A"].
Proof.
  exact (major_contributions_stops 5 "A - C" sample 1%Q ["A"; "B"]
                                   eq_refl sample_one_name).
Defined.

(* ------------------------------------------------------------------ *)
(** ** Observations of other routes *)

(** X9: the observations of other routes play no part: two tables with the
    same rows of a route, in the same order, give the same stops, the same
    contributions, delays and major contributions, and the same frequency of
    major delays for that route. *)
Theorem other_routes_ignored fuel route data data' :
  filter (fun r => fw_lang r =? route) data
  = filter (fun r => fw_lang r =? route) data' ->
  stops_on_route fuel route data = stops_on_route fuel route data'
  /\ contributions fuel route data = contributions fuel route data'
  /\ (forall which_holdup absolute,
         delay_along_route fuel route data which_holdup absolute
         = delay_along_route fuel route data' which_holdup absolute)
  /\ (forall cutoff,
         major_contributions fuel route data cutoff
         = major_contributions fuel route data' cutoff)
  /\ (forall cutoff per_stop what,
         freq_major_delays_route fuel route data cutoff per_stop what
         = freq_major_delays_route fuel route data' cutoff per_stop what).
Proof.
  intros E.
  assert (S : stops_on_route fuel route data = stops_on_route fuel route data')
    by (unfold stops_on_route, successor_table; rewrite E; reflexivity).
  assert (C : contributions fuel route data = contributions fuel route data')
    by (unfold contributions; rewrite E, S; reflexivity).
  split; [exact S|]. split; [exact C|]. split; [|split].
  - intros wh a. unfold delay_along_route. rewrite C. reflexivity.
  - intros cutoff. unfold major_contributions. rewrite C. reflexivity.
  - intros cutoff ps what. unfold freq_major_delays_route. rewrite E, S. reflexivity.
Qed.

Lemma other_routes_ignored_witness :
  delay_along_route 5 "A - C" sample "total" false
  = delay_along_route 5 "A - C" (firstn 6 sample) "total" false.
Proof.
  exact (proj1 (proj2 (proj2 (other_routes_ignored 5 "A - C" sample (firstn 6 sample)
                                                  eq_refl)))
               "total" false).
Defined.

(* ------------------------------------------------------------------ *)
(** ** Where the sequence of stops ends *)

Lemma linked_last succ last_stop cur p d :
  linked succ last_stop cur p -> p <> [] -> succ (List.last p d) = Some last_stop.
Proof.
  induction 1 as [|cur next p N E H IH]; intros NE; [congruence|].
  destruct p as [|x t].
  - inversion H; subst. exact E.
  - change (List.last (cur :: x :: t) d) with (List.last (x :: t) d).
    apply IH. discriminate.
Qed.

(** X10: a non-empty sequence that [stops_on_route] returns ends just before
    the final stop of the label: the successor of its last element is the
    third token of the label, and every stop of the sequence is the origin of
    an observation of the route. *)
Theorem stops_on_route_ends_before_last fuel route data l B :
  stops_on_route fuel route data = Returned l ->
  nth_error (split route) 2 = Some B ->
  l <> [] ->
  successor route data (List.last l B) = Some B
  /\ forall s, In s l -> observations route data s <> [].
Proof.
  intros H HB NE. split.
  - destruct (stops_on_route_returned _ _ _ _ H) as (A & B' & _ & HB' & L & _).
    assert (B' = B) by congruence. subst B'.
    apply (linked_last _ _ _ _ _ L NE).
  - intros s I X.
    destruct (stops_on_route_observed _ _ _ _ _ H I) as (r & Ir & Er & Es).
    assert (Y : In r (observations route data s)).
    { unfold observations. apply filter_In. split; [exact Ir|].
      apply andb_true_iff. rewrite !String.eqb_eq. auto. }
    rewrite X in Y. exact Y.
Qed.

Lemma stops_on_route_ends_before_last_witness :
  successor "A - C" sample "B" = Some "C".
Proof.
  apply (proj1 (stops_on_route_ends_before_last 5 "A - C" sample ["A"; "B"] "C"
                                                eq_refl eq_refl ltac:(discriminate))).
Defined.

(* ------------------------------------------------------------------ *)
(** ** Parsing a route label *)

Lemma ws_width_plain b r :
  ((32 <? b) && (b <? 128))%N = true -> ws_width (b :: r) = 0.
Proof.
  intros H. apply andb_true_iff in H. destruct H as (L & U).
  apply N.ltb_lt in L, U. unfold ws_width.
  replace ((9 <=? b) && (b <=? 13) || (28 <=? b) && (b <=? 32))%N with false.
  2:{ symmetry. apply orb_false_iff. split; apply andb_false_iff; right;
      apply N.leb_gt; lia. }
  destruct r as [|b1 r1]; [reflexivity|].
  replace (b =? 194)%N with false by (symmetry; apply N.eqb_neq; lia).
  cbn [andb].
  destruct r1 as [|b2 r2]; [reflexivity|].
  replace (b =? 225)%N with false by (symmetry; apply N.eqb_neq; lia).
  replace (b =? 226)%N with false by (symmetry; apply N.eqb_neq; lia).
  replace (b =? 227)%N with false by (symmetry; apply N.eqb_neq; lia).
  reflexivity.
Qed.

Lemma string_app_assoc (a b c : string) : ((a ++ b) ++ c = a ++ (b ++ c))%string.
Proof. induction a as [|x a IH]; simpl; [|rewrite IH]; reflexivity. Qed.

Lemma string_app_nil_r (a : string) : (a ++ "" = a)%string.
Proof. induction a as [|x a IH]; simpl; [|rewrite IH]; reflexivity. Qed.

(** The scanner reads a plain text into the current token. *)
Lemma split_ws_plain a :
  plain a = true ->
  forall cur rest, split_ws 0 cur (a ++ rest) = split_ws 0 (cur ++ a) rest.
Proof.
  induction a as [|c t IH]; intros P cur rest.
  - rewrite string_app_nil_r. reflexivity.
  - unfold plain in P. cbn [bytes forallb] in P. apply andb_true_iff in P.
    destruct P as (Pc & Pt).
    change (String c t ++ rest)%string with (String c (t ++ rest)%string).
    cbn [split_ws bytes]. rewrite (ws_width_plain _ _ Pc).
    rewrite (IH Pt), string_app_assoc. reflexivity.
Qed.

Lemma split_ws_blank cur rest :
  split_ws 0 cur (String " " rest) = emit cur (split_ws 0 "" rest).
Proof. reflexivity. Qed.

Lemma split_ws_end cur : split_ws 0 cur "" = emit cur [].
Proof. reflexivity. Qed.

Lemma emit_token cur rest : cur <> "" -> emit cur rest = cur :: rest.
Proof. destruct cur; [congruence | reflexivity]. Qed.

(** X11: a label written as a first stop, " - " and a last stop, the stops
    being non-empty texts of printable non-blank ASCII characters, splits
    into exactly three tokens, so that [stops_on_route] reads the first stop
    as its start and the last stop as its end. *)
Theorem split_route_label A B :
  plain A = true -> plain B = true -> A <> "" -> B <> "" ->
  split (A ++ " - " ++ B) = [A; "-"; B]
  /\ forall fuel data,
      stops_on_route fuel (A ++ " - " ++ B) data
      = stops_loop fuel (successor_table (A ++ " - " ++ B) data) B [] A.
Proof.
  intros PA PB NA NB.
  assert (S : split (A ++ " - " ++ B) = [A; "-"; B]).
  { unfold split. rewrite (split_ws_plain A PA). cbn [String.append].
    rewrite split_ws_blank, (emit_token _ _ NA).
    change (String "-" (String " " B)) with ("-" ++ String " " B)%string.
    rewrite (split_ws_plain "-" eq_refl). cbn [String.append].
    rewrite split_ws_blank. cbn [emit].
    rewrite <- (string_app_nil_r B) at 1.
    rewrite (split_ws_plain B PB). cbn [String.append].
    rewrite split_ws_end, (emit_token _ _ NB). reflexivity. }
  split; [exact S|].
  intros fuel data. apply stops_on_route_tokens; rewrite S; reflexivity.
Qed.

Lemma split_route_label_witness : split "REHA - ZAUZ" = ["REHA"; "-"; "ZAUZ"].
Proof.
  exact (proj1 (split_route_label "REHA" "ZAUZ" eq_refl eq_refl
                                  ltac:(discriminate) ltac:(discriminate))).
Defined.

(* ------------------------------------------------------------------ *)
(** ** Names resolved by [convert_short_to_long] *)

Lemma existsb_eqb_In (v : string) (seen : list string) :
  existsb (fun w => w =? v) seen = true <-> In v seen.
Proof.
  rewrite existsb_exists. split.
  - intros (w & I & E). apply String.eqb_eq in E. subst. exact I.
  - intros I. exists v. split; [exact I | apply String.eqb_refl].
Qed.

(** After [drop_duplicates] no value is held twice, and none that was seen
    before. *)
Lemma drop_duplicates_values_NoDup s :
  forall seen,
    NoDup (map snd (drop_duplicates_values seen s))
    /\ forall p, In p (drop_duplicates_values seen s) -> ~ In (snd p) seen.
Proof.
  induction s as [|q t IH]; intros seen; simpl; [split; [constructor | tauto]|].
  destruct (existsb (fun v => v =? snd q) seen) eqn:E; [apply IH|].
  destruct (IH (snd q :: seen)) as (N & F). split.
  - simpl. constructor; [|exact N].
    intros I. apply in_map_iff in I. destruct I as (p & Ep & Ip).
    apply (F p Ip). left. symmetry. exact Ep.
  - intros p [<-|I].
    + intros I. apply existsb_eqb_In in I. congruence.
    + intros I'. apply (F p I). right. exact I'.
Qed.

Lemma series_loc_scalar s label n :
  series_loc s label = Returned (Scalar n) -> In (label, n) s.
Proof.
  unfold series_loc.
  destruct (filter (fun p => fst p =? label) s) as [|p [|q t]] eqn:F; try discriminate.
  intros H. injection H as <-.
  assert (I : In p (filter (fun p => fst p =? label) s)) by (rewrite F; left; reflexivity).
  apply filter_In in I. destruct I as (I & E). apply String.eqb_eq in E.
  destruct p; simpl in *; subst; exact I.
Qed.

Lemma NoDup_map_eq {A B : Type} (f : A -> B) (l : list A) a b :
  NoDup (map f l) -> In a l -> In b l -> f a = f b -> a = b.
Proof.
  induction l as [|x t IH]; simpl; [tauto|]. intros N Ia Ib E.
  inversion N as [|? ? NI N']; subst.
  destruct Ia as [->|Ia], Ib as [->|Ib]; auto.
  - exfalso. apply NI. rewrite E. apply in_map, Ib.
  - exfalso. apply NI. rewrite <- E. apply in_map, Ia.
Qed.

(** X12: [convert_short_to_long] never resolves two different short codes to
    the same name: the names it returns for different codes differ. *)
Theorem convert_short_to_long_distinct c1 c2 n1 n2 data :
  c1 <> c2 ->
  convert_short_to_long c1 data = Returned (Scalar n1) ->
  convert_short_to_long c2 data = Returned (Scalar n2) ->
  n1 <> n2.
Proof.
  intros N H1 H2 E. subst n2. apply N.
  rewrite convert_short_to_long_table in H1, H2.
  apply series_loc_scalar in H1, H2.
  destruct (drop_duplicates_values_NoDup
              (map (fun r => (halt_kurz r, strip_city (halt_lang r))) data) [])
    as (D & _).
  pose proof (NoDup_map_eq snd _ _ _ D H1 H2 eq_refl) as X.
  congruence.
Qed.

Lemma convert_short_to_long_distinct_witness : "Alpha" <> "Beta".
Proof.
  apply (convert_short_to_long_distinct "A" "B" "Alpha" "Beta" sample);
    [discriminate | reflexivity | reflexivity].
Defined.

(* ------------------------------------------------------------------ *)
(** ** [freq_major_delays_line] *)

Lemma freq_major_delays_route_returned fuel route data cutoff per_stop what n m p :
  freq_major_delays_route fuel route data cutoff per_stop what = Returned (n, m, p) ->
  0 < n /\ m <= n.
Proof.
  unfold freq_major_delays_route.
  destruct (stops_on_route fuel route data) as [l| |]; cbn [bind]; try discriminate.
  destruct (getitem_neg l 2) as [s| |]; cbn [bind]; try discriminate.
  unfold py_div.
  destruct (List.length (filter (fun r => halt_kurz r =? s) _)) as [|k] eqn:E;
    cbn [bind]; [discriminate|].
  intros H. injection H as <- <- _. split; [lia|].
  rewrite <- E. apply filter_length_bound.
Qed.

Lemma inject_nat_add a b :
  (inject_Z (Z.of_nat (a + b)) == inject_Z (Z.of_nat a) + inject_Z (Z.of_nat b))%Q.
Proof. rewrite Nat2Z.inj_add, inject_Z_plus. reflexivity. Qed.

Lemma inject_nat_pos n : 0 < n -> (0 < inject_Z (Z.of_nat n))%Q.
Proof. intros H. change 0%Q with (inject_Z 0). rewrite <- Zlt_Qlt. lia. Qed.

Lemma inject_nat_le a b : a <= b -> (inject_Z (Z.of_nat a) <= inject_Z (Z.of_nat b))%Q.
Proof. intros H. rewrite <- Zle_Qle. lia. Qed.

(** The share of a pooled sample lies between the shares of its two parts. *)
Lemma pooled_between (m1 n1 m2 n2 : Q) :
  (0 < n1 -> 0 < n2 ->
   m1 / n1 <= m2 / n2 ->
   m1 / n1 <= (m1 + m2) / (n1 + n2) /\ (m1 + m2) / (n1 + n2) <= m2 / n2)%Q.
Proof.
  intros P1 P2 L.
  assert (E1 : (m1 / n1 * n1 == m1)%Q) by (field; lra).
  assert (E2 : (m2 / n2 * n2 == m2)%Q) by (field; lra).
  set (x1 := (m1 / n1)%Q) in *. set (x2 := (m2 / n2)%Q) in *.
  assert (A : (x1 * n2 <= x2 * n2)%Q) by (apply Qmult_le_compat_r; lra).
  assert (B : (x1 * n1 <= x2 * n1)%Q) by (apply Qmult_le_compat_r; lra).
  split.
  - apply Qle_shift_div_l; [lra|]. lra.
  - apply Qle_shift_div_r; [lra|]. lra.
Qed.

Lemma freq_major_delays_line_value fuel line data cutoff per_stop what
      r1 r2 n1 m1 p1 n2 m2 p2 :
  main_routes_of_line line data = [r1; r2] ->
  freq_major_delays_route fuel r1 data cutoff per_stop what = Returned (n1, m1, p1) ->
  freq_major_delays_route fuel r2 data cutoff per_stop what = Returned (n2, m2, p2) ->
  freq_major_delays_line fuel line data cutoff per_stop what
  = Returned (inject_Z (Z.of_nat (m1 + m2)) / inject_Z (Z.of_nat (n1 + n2)) * 100)%Q.
Proof.
  intros M F1 F2.
  destruct (freq_major_delays_route_returned _ _ _ _ _ _ _ _ _ F1) as (P1 & _).
  unfold freq_major_delays_line. rewrite M. cbn [unpack2 bind fst snd].
  rewrite F1, F2. cbn [bind fst snd]. unfold py_div.
  destruct (n1 + n2) as [|k] eqn:E; [lia|]. reflexivity.
Qed.



(* ------------------------------------------------------------------ *)
(** ** [table_major_delays_lines] *)

Lemma percentage_range m n :
  0 < n -> m <= n ->
  (0 <= inject_Z (Z.of_nat m) / inject_Z (Z.of_nat n) * 100 <= 100)%Q.
Proof.
  intros P L. pose proof (inject_nat_pos _ P) as N.
  pose proof (inject_nat_le _ _ L) as B.
  pose proof (inject_nat_le 0 m ltac:(lia)) as Z0.
  change (inject_Z (Z.of_nat 0)) with 0%Q in Z0.
  set (a := inject_Z (Z.of_nat m)) in *. set (b := inject_Z (Z.of_nat n)) in *.
  assert (E : (a / b * b == a)%Q) by (field; lra).
  assert (R : (0 <= a / b <= 1)%Q).
  { split; [apply Qle_shift_div_l; lra | apply Qle_shift_div_r; lra]. }
  lra.
Qed.

Lemma freq_major_delays_line_range fuel line data cutoff per_stop what v :
  freq_major_delays_line fuel line data cutoff per_stop what = Returned v ->
  (0 <= v <= 100)%Q.
Proof.
  intros H. pose proof H as H'. unfold freq_major_delays_line in H.
  destruct (main_routes_of_line line data) as [|r1 [|r2 [|r3 t]]] eqn:M;
    cbn [unpack2 bind fst snd] in H; try discriminate.
  destruct (freq_major_delays_route fuel r1 data cutoff per_stop what)
    as [[[n1 m1] p1]| |] eqn:F1; cbn [bind] in H; try discriminate.
  destruct (freq_major_delays_route fuel r2 data cutoff per_stop what)
    as [[[n2 m2] p2]| |] eqn:F2; cbn [bind] in H; try discriminate.
  clear H.
  rewrite (freq_major_delays_line_value _ _ _ _ _ _ _ _ _ _ _ _ _ _ M F1 F2) in H'.
  injection H' as <-.
  destruct (freq_major_delays_route_returned _ _ _ _ _ _ _ _ _ F1) as (P1 & L1).
  destruct (freq_major_delays_route_returned _ _ _ _ _ _ _ _ _ F2) as (P2 & L2).
  apply percentage_range; lia.
Qed.

Lemma round_half_even_between (lo hi : Z) x :
  (inject_Z lo <= x <= inject_Z hi)%Q ->
  (lo <= round_half_even x <= hi)%Z.
Proof.
  intros (L & U). unfold round_half_even.
  assert (FL : (lo <= Qfloor x)%Z)
    by (rewrite <- (Qfloor_Z lo); apply Qfloor_resp_le, L).
  assert (FU : (Qfloor x <= hi)%Z)
    by (rewrite <- (Qfloor_Z hi); apply Qfloor_resp_le, U).
  pose proof (Qfloor_le x) as F0.
  destruct (Z.eq_dec (Qfloor x) hi) as [E|N].
  - rewrite E in *.
    assert (C : ((x - inject_Z hi) ?= (1 # 2))%Q = Lt).
    { change (x - inject_Z hi < 1 # 2)%Q. lra. }
    rewrite C. lia.
  - destruct (Qcompare _ _); [destruct (Z.even _)| |]; lia.
Qed.

Lemma py_round2_range x : (0 <= x <= 100)%Q -> (0 <= py_round2 x <= 100)%Q.
Proof.
  intros (L & U). unfold py_round2.
  destruct (round_half_even_between 0 10000 (x * 100)) as (A & B).
  { change (inject_Z 0) with 0%Q. change (inject_Z 10000) with 10000%Q. lra. }
  rewrite Zle_Qle in A, B.
  change (inject_Z 0) with 0%Q in A. change (inject_Z 10000) with 10000%Q in B.
  unfold Qdiv. change (/ 100)%Q with (1 # 100)%Q. lra.
Qed.

Lemma major_delays_loop_returned fuel data cutoff per_stop what lines :
  forall acc P,
    major_delays_loop fuel data cutoff per_stop what lines acc = Returned P ->
    exists ps,
      P = acc ++ ps
      /\ List.length ps = List.length lines
      /\ Forall (fun p => (0 <= p <= 100)%Q) ps.
Proof.
  induction lines as [|line rest IH]; intros acc P H; cbn [major_delays_loop] in H.
  - injection H as <-. exists []. rewrite app_nil_r. repeat split. constructor.
  - destruct (freq_major_delays_line fuel line data cutoff per_stop what)
      as [v| |] eqn:F; cbn [bind] in H; try discriminate.
    destruct (IH _ _ H) as (ps & -> & L & A).
    exists (py_round2 v :: ps). rewrite <- app_assoc. simpl.
    repeat split; [lia|].
    constructor; [|exact A].
    apply py_round2_range, (freq_major_delays_line_range _ _ _ _ _ _ _ F).
Qed.

Lemma combine_fst {A B : Type} (l : list A) (m : list B) :
  List.length m = List.length l -> map fst (combine l m) = l.
Proof.
  revert m. induction l as [|x t IH]; intros [|y u] H; simpl in *; try lia; [reflexivity|].
  f_equal. apply IH. lia.
Qed.

Lemma combine_snd {A B : Type} (l : list A) (m : list B) :
  List.length m = List.length l -> map snd (combine l m) = m.
Proof.
  revert m. induction l as [|x t IH]; intros [|y u] H; simpl in *; try lia; [reflexivity|].
  f_equal. apply IH. lia.
Qed.

(** X14: a table that [table_major_delays_lines] returns has one row per
    given line, in the given order, and every percentage in it lies between
    0 and 100. *)
Theorem table_major_delays_lines_rows fuel lines data cutoff per_stop what T :
  table_major_delays_lines fuel lines data cutoff per_stop what = Returned T ->
  map fst T = lines
  /\ Forall (fun row => (0 <= snd row <= 100)%Q) T.
Proof.
  unfold table_major_delays_lines.
  destruct (major_delays_loop fuel data cutoff per_stop what lines []) as [P| |] eqn:L;
    cbn [bind]; try discriminate.
  intros H. injection H as <-.
  destruct (major_delays_loop_returned _ _ _ _ _ _ _ _ L) as (ps & -> & Len & A).
  simpl. split; [apply combine_fst, Len|].
  apply Forall_forall. intros row I.
  assert (Is : In (snd row) (map snd (combine lines ps))) by (apply in_map, I).
  rewrite (combine_snd _ _ Len) in Is.
  rewrite Forall_forall in A. apply A, Is.
Qed.

Lemma table_major_delays_lines_rows_witness :
  map fst [(4%Z, (5000 # 100)%Q)] = [4%Z]
  /\ Forall (fun row : Z * Q => (0 <= snd row <= 100)%Q) [(4%Z, (5000 # 100)%Q)].
Proof.
  exact (table_major_delays_lines_rows 5 [4%Z] sample 1%Q true "delay"
                                       [(4%Z, (5000 # 100)%Q)] eq_refl).
Defined.

(* ------------------------------------------------------------------ *)
(** ** [table_lines] *)

Lemma table_lines_loop_returned fuel data which_holdup per_stop lines :
  forall D V D' V',
    table_lines_loop fuel data which_holdup per_stop lines D V = Returned (D', V') ->
    exists ds vs,
      D' = D ++ ds /\ V' = V ++ vs
      /\ List.length ds = List.length lines /\ List.length vs = List.length lines
      /\ Forall (line_row fuel data which_holdup per_stop)
                (combine lines (combine ds vs)).
Proof.
  induction lines as [|line rest IH]; intros D V D' V' H; cbn [table_lines_loop] in H.
  - injection H as <- <-. exists [], []. rewrite !app_nil_r. repeat split. constructor.
  - destruct (measure_of_delay_line fuel line data which_holdup false per_stop)
      as [d| |] eqn:Md; cbn [bind] in H; try discriminate.
    destruct (measure_of_delay_line fuel line data which_holdup true true)
      as [v| |] eqn:Mv; cbn [bind] in H; try discriminate.
    destruct (IH _ _ _ _ H) as (ds & vs & -> & -> & Ld & Lv & A).
    exists (d :: ds), (v :: vs). rewrite <- !app_assoc. simpl.
    repeat split; try lia.
    constructor; [split; assumption | exact A].
Qed.

Lemma line_rows_deviations fuel data which_holdup per_stop per_stop'
      (T T' : list (Z * (option float * option float))) :
  map fst T = map fst T' ->
  Forall (line_row fuel data which_holdup per_stop) T ->
  Forall (line_row fuel data which_holdup per_stop') T' ->
  map (fun row => snd (snd row)) T = map (fun row => snd (snd row)) T'.
Proof.
  revert T'. induction T as [|x t IH]; intros [|y u] E A B; simpl in *;
    try discriminate; [reflexivity|].
  injection E as E1 E2. inversion A as [|? ? (_ & Ax) At]; subst.
  inversion B as [|? ? (_ & By) Bu]; subst.
  f_equal; [|apply IH; assumption].
  rewrite E1 in Ax. congruence.
Qed.

(** X15: a table that [table_lines] returns has one row per given line, in
    the given order, holding the line's measure of delay as asked for
    ([per_stop] passed on) and the line's measure of deviation with
    [per_stop=True] whatever was asked: [per_stop] is not passed on to the
    second call, so the deviation column is the same with [per_stop=False]
    as with [per_stop=True]. *)
Theorem table_lines_rows fuel lines data which_holdup per_stop T :
  table_lines fuel lines data which_holdup per_stop = Returned T ->
  map fst T = lines
  /\ Forall (line_row fuel data which_holdup per_stop) T
  /\ forall T',
      table_lines fuel lines data which_holdup (negb per_stop) = Returned T' ->
      map (fun row => snd (snd row)) T' = map (fun row => snd (snd row)) T.
Proof.
  assert (G : forall ps U,
             table_lines fuel lines data which_holdup ps = Returned U ->
             map fst U = lines /\ Forall (line_row fuel data which_holdup ps) U).
  { intros ps U. unfold table_lines.
    destruct (table_lines_loop fuel data which_holdup ps lines [] []) as [[D V]| |] eqn:L;
      cbn [bind]; try discriminate.
    intros H. injection H as <-.
    destruct (table_lines_loop_returned _ _ _ _ _ _ _ _ _ L)
      as (ds & vs & -> & -> & Ld & Lv & A).
    simpl. split; [|exact A].
    apply combine_fst. rewrite length_combine. lia. }
  intros H. destruct (G _ _ H) as (I & A). split; [exact I|]. split; [exact A|].
  intros T' H'. destruct (G _ _ H') as (I' & A').
  apply (line_rows_deviations fuel data which_holdup (negb per_stop) per_stop);
    [congruence | exact A' | exact A].
Qed.

Lemma table_lines_rows_witness :
  exists T, table_lines 5 [4%Z] sample "total" false = Returned T
            /\ map fst T = [4%Z].
Proof.
  eexists. split; [reflexivity|].
  exact (proj1 (table_lines_rows 5 [4%Z] sample "total" false _ eq_refl)).
Defined.

(* ------------------------------------------------------------------ *)
(** ** [freq_major_holdups_stop] *)

Lemma filter_length_mono {A : Type} (f g : A -> bool) (l : list A) :
  (forall x, f x = true -> g x = true) ->
  List.length (filter f l) <= List.length (filter g l).
Proof.
  intros H. induction l as [|x t IH]; simpl; [lia|].
  destruct (f x) eqn:F; [rewrite (H x F); simpl; lia|].
  destruct (g x); simpl; lia.
Qed.

Lemma percentage_mono m m' n :
  0 < n -> m <= m' ->
  (inject_Z (Z.of_nat m) / inject_Z (Z.of_nat n) * 100
   <= inject_Z (Z.of_nat m') / inject_Z (Z.of_nat n) * 100)%Q.
Proof.
  intros P L. pose proof (inject_nat_pos _ P) as N.
  pose proof (inject_nat_le _ _ L) as B.
  apply Qmult_le_compat_r; [|discriminate].
  unfold Qdiv. apply Qmult_le_compat_r; [exact B|].
  apply Qinv_le_0_compat, Qlt_le_weak, N.
Qed.

(** The value of the call once the route and the column are known. *)
Lemma freq_major_holdups_stop_value line stop cutoff data what (reverse : bool)
      which_holdup route col :
  nth_error (main_routes_of_line line data) (if reverse then 1 else 0) = Some route ->
  holdup_column which_holdup = Some col ->
  let major r := if what =? "deviation"
                 then Qltb cutoff (col r) || Qltb (col r) (-1 * cutoff)
                 else Qltb cutoff (col r) in
  freq_major_holdups_stop line stop cutoff data what reverse which_holdup
  = (ratio <~ of_outcome (py_div (List.length (filter major (seen_at route stop data)))
                                 (List.length (seen_at route stop data))) ;;
     Value (ratio * 100)%Q).
Proof.
  intros R C. cbv zeta. unfold freq_major_holdups_stop, getitem.
  destruct reverse; rewrite R, C; cbn [of_outcome bind_answer read_local];
    fold (seen_at route stop data); destruct (what =? "deviation");
      cbn [bind_answer]; reflexivity.
Qed.



(* ------------------------------------------------------------------ *)
(** ** [freq_major_holdups_all_stops] *)

Lemma convert_short_to_long_same_name c1 c2 n data :
  convert_short_to_long c1 data = Returned (Scalar n) ->
  convert_short_to_long c2 data = Returned (Scalar n) ->
  c1 = c2.
Proof.
  intros H1 H2. rewrite convert_short_to_long_table in H1, H2.
  apply series_loc_scalar in H1, H2.
  destruct (drop_duplicates_values_NoDup
              (map (fun r => (halt_kurz r, strip_city (halt_lang r))) data) [])
    as (D & _).
  pose proof (NoDup_map_eq snd _ _ _ D H1 H2 eq_refl) as X.
  congruence.
Qed.

Lemma dict_set_fresh {V : Type} k (v : V) d :
  ~ In k (map fst d) -> dict_set k v d = d ++ [(k, v)].
Proof.
  induction d as [|[k' v'] t IH]; simpl; intros N; [reflexivity|].
  destruct (String.eqb_spec k' k) as [E|_]; [tauto|].
  rewrite IH by tauto. reflexivity.
Qed.

Lemma NoDup_snoc {A : Type} (l : list A) x : NoDup l -> ~ In x l -> NoDup (l ++ [x]).
Proof.
  induction l as [|y t IH]; simpl; intros N NI; [repeat constructor; tauto|].
  inversion N as [|? ? Ny Nt]; subst. constructor.
  - intros I. apply in_app_or in I. destruct I as [I|[E|[]]]; [tauto|].
    apply NI. left. symmetry. exact E.
  - apply IH; tauto.
Qed.

Lemma all_stops_loop_rows line cutoff data what reverse which_holdup stops :
  forall dict T,
    NoDup stops ->
    NoDup (map fst dict) ->
    (forall k, In k (map fst dict) ->
               exists c, convert_short_to_long c data = Returned (Scalar k)
                         /\ ~ In c stops) ->
    all_stops_loop line cutoff data what reverse which_holdup stops dict = Value T ->
    exists rows,
      T = dict ++ rows
      /\ Forall2 (stop_row line cutoff data what reverse which_holdup) stops rows
      /\ NoDup (map fst T).
Proof.
  induction stops as [|stop rest IH]; intros dict T N ND K H; cbn [all_stops_loop] in H.
  - injection H as <-. exists []. rewrite app_nil_r. repeat split; [constructor | exact ND].
  - destruct (freq_major_holdups_stop line stop cutoff data what reverse which_holdup)
      as [p| |] eqn:F; cbn [bind_answer] in H; try discriminate.
    destruct (convert_short_to_long stop data) as [[n|vs]| |] eqn:C;
      cbn [of_outcome bind_answer dict_key] in H; try discriminate.
    inversion N as [|? ? Ns Nr]; subst.
    assert (Fresh : ~ In n (map fst dict)).
    { intros I. destruct (K n I) as (c & Hc & Nc).
      apply Nc. left. symmetry. apply (convert_short_to_long_same_name _ _ _ _ Hc C). }
    rewrite (dict_set_fresh _ _ _ Fresh) in H.
    destruct (IH (dict ++ [(n, p)]) T Nr) as (rows & -> & R & NT); [| |exact H|].
    + rewrite map_app. apply NoDup_snoc; assumption.
    + intros k I. rewrite map_app in I. apply in_app_or in I.
      destruct I as [I|[<-|[]]].
      * destruct (K k I) as (c & Hc & Nc). exists c. split; [exact Hc|].
        intros X. apply Nc. right. exact X.
      * exists stop. split; [exact C | exact Ns].
    + exists ((n, p) :: rows). rewrite <- app_assoc in *. simpl.
      repeat split; [|exact NT].
      constructor; [split; assumption | exact R].
Qed.



(* ------------------------------------------------------------------ *)
(** ** [table_delays_lines] *)

Lemma dict_set_line_In {V : Type} k (v : V) d k' v' :
  In (k', v') (dict_set_line k v d) -> (k' = k /\ v' = v) \/ In (k', v') d.
Proof.
  induction d as [|[a b] t IH]; simpl.
  - intros [E|[]]. injection E as <- <-. auto.
  - destruct (Z.eqb_spec a k) as [->|N]; simpl.
    + intros [E|I]; [injection E as <- <-; auto | auto].
    + intros [E|I]; [auto|]. destruct (IH I) as [X|X]; auto.
Qed.

Lemma dict_set_line_keys {V : Type} k (v : V) d x :
  In x (map fst (dict_set_line k v d)) <-> x = k \/ In x (map fst d).
Proof.
  induction d as [|[a b] t IH]; simpl; [intuition congruence|].
  destruct (Z.eqb_spec a k) as [->|N]; simpl; [intuition congruence|].
  rewrite IH. intuition congruence.
Qed.

Lemma dict_set_line_NoDup {V : Type} k (v : V) d :
  NoDup (map fst d) -> NoDup (map fst (dict_set_line k v d)).
Proof.
  induction d as [|[a b] t IH]; simpl; intros N; [repeat constructor; tauto|].
  inversion N as [|? ? Na Nt]; subst.
  destruct (Z.eqb_spec a k) as [->|E]; simpl; [constructor; assumption|].
  constructor; [|apply IH, Nt].
  rewrite dict_set_line_keys. intros [X|X]; [congruence | tauto].
Qed.

(** The dictionary after the loop: its keys are the lines met, each once, and
    the value of a line is the list of delays of its main routes. *)
Lemma lines_delays_loop_returned fuel data lines :
  forall dict D,
    lines_delays_loop fuel data lines dict = Returned D ->
    NoDup (map fst dict) ->
    (forall k v, In (k, v) dict ->
                 route_delays_loop fuel data (main_routes_of_line k data) [] = Returned v) ->
    NoDup (map fst D)
    /\ (forall k, In k (map fst D) <-> In k lines \/ In k (map fst dict))
    /\ (forall k v, In (k, v) D ->
                    route_delays_loop fuel data (main_routes_of_line k data) []
                    = Returned v).
Proof.
  induction lines as [|line rest IH]; intros dict D H N V; cbn [lines_delays_loop] in H.
  - injection H as <-. repeat split; [exact N | simpl; tauto | simpl; tauto | exact V].
  - destruct (route_delays_loop fuel data (main_routes_of_line line data) [])
      as [array| |] eqn:A; cbn [bind] in H; try discriminate.
    destruct (IH _ _ H (dict_set_line_NoDup _ _ _ N)) as (ND & K & VD).
    + intros k v I. apply dict_set_line_In in I.
      destruct I as [(-> & ->)|I]; [exact A | apply V, I].
    + split; [exact ND|]. split; [|exact VD].
      intros k. rewrite K, dict_set_line_keys. simpl. intuition congruence.
Qed.

Lemma pad_length height values :
  List.length values <= height -> List.length (pad height values) = height.
Proof.
  intros H. unfold pad. rewrite length_app, length_map, repeat_length. lia.
Qed.

Lemma max_length_bound {A : Type} (f : A -> nat) (l : list A) x :
  In x l -> f x <= fold_right Nat.max 0 (map f l).
Proof.
  induction l as [|y t IH]; simpl; [tauto|].
  intros [->|I]; [lia | specialize (IH I); lia].
Qed.

(** The delays that a route adds to the array are those of the observations
    that [freq_major_delays_route] counts. *)
Lemma route_delays_counted fuel route data cutoff per_stop what n m p :
  freq_major_delays_route fuel route data cutoff per_stop what = Returned (n, m, p) ->
  forall rest array,
    exists col,
      List.length col = n
      /\ route_delays_loop fuel data (route :: rest) array
         = route_delays_loop fuel data rest (array ++ col).
Proof.
  unfold freq_major_delays_route. intros H rest array. cbn [route_delays_loop].
  destruct (stops_on_route fuel route data) as [l| |]; cbn [bind] in *; try discriminate.
  destruct (getitem_neg l 2) as [s| |]; cbn [bind] in *; try discriminate.
  unfold py_div in H.
  destruct (List.length (filter (fun r => halt_kurz r =? s) _)) as [|k] eqn:E;
    cbn [bind] in H; [discriminate|].
  injection H as <- _ _.
  eexists. split; [|reflexivity]. rewrite length_map. exact E.
Qed.



(* ------------------------------------------------------------------ *)
(** ** A line with a single route label *)

Lemma unique_constant v l :
  (forall x, In x l -> x = v) -> l <> [] -> unique l = [v].
Proof.
  induction l as [|x t IH]; intros H NE; [congruence|].
  assert (x = v) by (apply H; left; reflexivity). subst x. simpl.
  destruct t as [|y u]; [reflexivity|].
  rewrite IH; [|intros z I; apply H; right; exact I | discriminate].
  simpl. rewrite String.eqb_refl. reflexivity.
Qed.

Lemma main_routes_single line data route :
  (exists r, In r data /\ linie r = line) ->
  (forall r, In r data -> linie r = line -> fw_lang r = route) ->
  main_routes_of_line line data = [route].
Proof.
  intros (r0 & I0 & E0) H. unfold main_routes_of_line, value_counts.
  rewrite (unique_constant route); [reflexivity | |].
  - intros x I. apply in_map_iff in I. destruct I as (r & <- & I).
    apply filter_In in I. destruct I as (I & E). apply Z.eqb_eq in E. auto.
  - intros X.
    assert (I : In (fw_lang r0)
                   (map fw_lang (filter (fun r => (linie r =? line)%Z) data))).
    { apply in_map, filter_In. split; [exact I0 | apply Z.eqb_eq, E0]. }
    rewrite X in I. exact I.
Qed.

(** X19: for a line whose observations all carry one route label, that label
    is the only main route: [major_contributions_line] works in the forward
    direction and raises [IndexError] with [reverse=True], as do
    [freq_major_holdups_stop] and [freq_major_holdups_all_stops];
    [freq_major_delays_line] raises [ValueError] on unpacking two routes. *)
Theorem single_route_line fuel line data route :
  (exists r, In r data /\ linie r = line) ->
  (forall r, In r data -> linie r = line -> fw_lang r = route) ->
  main_routes_of_line line data = [route]
  /\ (forall cutoff,
         major_contributions_line fuel line data cutoff false
         = major_contributions fuel route data cutoff)
  /\ (forall cutoff,
         major_contributions_line fuel line data cutoff true = Raised IndexError)
  /\ (forall cutoff per_stop what,
         freq_major_delays_line fuel line data cutoff per_stop what
         = Raised ValueError)
  /\ (forall stop cutoff what which_holdup,
         freq_major_holdups_stop line stop cutoff data what true which_holdup
         = Error (Exn IndexError))
  /\ (forall cutoff what which_holdup,
         freq_major_holdups_all_stops fuel line cutoff data what true which_holdup
         = Error (Exn IndexError)).
Proof.
  intros Ex H. pose proof (main_routes_single line data route Ex H) as M.
  split; [exact M|]. split; [|split; [|split; [|split]]].
  - intros cutoff. unfold major_contributions_line. rewrite M. reflexivity.
  - intros cutoff. unfold major_contributions_line. rewrite M. reflexivity.
  - intros cutoff ps what. unfold freq_major_delays_line. rewrite M. reflexivity.
  - intros stop cutoff what wh. unfold freq_major_holdups_stop. rewrite M. reflexivity.
  - intros cutoff what wh. unfold freq_major_holdups_all_stops. rewrite M. reflexivity.
Qed.

Lemma single_route_line_witness :
  main_routes_of_line 9 broken = ["A - C"]
  /\ freq_major_delays_line 5 9 broken 1 true "delay" = Raised ValueError.
Proof.
  assert (Ex : exists r, In r broken /\ linie r = 9%Z)
    by (eexists; split; [left; reflexivity | reflexivity]).
  assert (H : forall r, In r broken -> linie r = 9%Z -> fw_lang r = "A - C")
    by (intros r [<-|[]] _; reflexivity).
  destruct (single_route_line 5 9%Z broken "A - C" Ex H) as (A & _ & _ & D & _).
  split; [exact A | apply D].
Defined.

(* ------------------------------------------------------------------ *)
(** ** Raising the cutoff *)

Lemma round_half_even_mono x y :
  (x <= y)%Q -> (round_half_even x <= round_half_even y)%Z.
Proof.
  intros L. pose proof (Qfloor_resp_le _ _ L) as F.
  pose proof (Qfloor_le x) as Lx. pose proof (Qfloor_le y) as Ly.
  unfold round_half_even.
  destruct (Z.eq_dec (Qfloor x) (Qfloor y)) as [E|N].
  - rewrite E in *.
    destruct (Qcompare (x - inject_Z (Qfloor y)) (1 # 2)) eqn:Cx;
      [apply Qeq_alt in Cx | apply Qlt_alt in Cx | apply Qgt_alt in Cx];
      (destruct (Qcompare (y - inject_Z (Qfloor y)) (1 # 2)) eqn:Cy;
       [apply Qeq_alt in Cy | apply Qlt_alt in Cy | apply Qgt_alt in Cy]);
      try (destruct (Z.even (Qfloor y))); try lia; exfalso; lra.
  - destruct (Qcompare (x - _) _); destruct (Qcompare (y - _) _);
      try (destruct (Z.even (Qfloor x))); try (destruct (Z.even (Qfloor y))); lia.
Qed.

Lemma py_round2_mono x y : (x <= y)%Q -> (py_round2 x <= py_round2 y)%Q.
Proof.
  intros L. unfold py_round2.
  assert (M : (round_half_even (x * 100) <= round_half_even (y * 100))%Z)
    by (apply round_half_even_mono; lra).
  rewrite Zle_Qle in M. unfold Qdiv. change (/ 100)%Q with (1 # 100)%Q. lra.
Qed.

Lemma exceeds_antitone what t t' d :
  (t <= t')%Q -> exceeds what t' d = true -> exceeds what t d = true.
Proof.
  intros L. rewrite !exceeds_spec. destruct (what =? "deviation"); intros; lra.
Qed.

(** X20: raising the cutoff never raises the result of
    [freq_major_delays_route]: the number of observations stays, and the
    number of major delays and the percentage do not grow. *)
Theorem freq_major_delays_route_cutoff
        fuel route data cutoff cutoff' (per_stop : bool) what n m p n' m' p' :
  (cutoff <= cutoff')%Q ->
  freq_major_delays_route fuel route data cutoff per_stop what = Returned (n, m, p) ->
  freq_major_delays_route fuel route data cutoff' per_stop what = Returned (n', m', p') ->
  n' = n /\ m' <= m /\ (p' <= p)%Q.
Proof.
  intros L H H'.
  destruct (freq_major_delays_route_returned _ _ _ _ _ _ _ _ _ H) as (P & _).
  unfold freq_major_delays_route in H, H'.
  destruct (stops_on_route fuel route data) as [l| |] eqn:Sr; cbn [bind] in *;
    try discriminate.
  destruct (getitem_neg l 2) as [s| |] eqn:G; cbn [bind] in *; try discriminate.
  set (seen := filter (fun r => halt_kurz r =? s)
                      (filter (fun r => fw_lang r =? route) data)) in *.
  set (t := if per_stop then (cutoff * inject_Z (Z.of_nat (List.length l)))%Q
            else cutoff) in *.
  set (t' := if per_stop then (cutoff' * inject_Z (Z.of_nat (List.length l)))%Q
             else cutoff') in *.
  assert (T : (t <= t')%Q).
  { subst t t'. destruct per_stop; [|exact L].
    apply Qmult_le_compat_r; [exact L|].
    change 0%Q with (inject_Z (Z.of_nat 0)). apply inject_nat_le. lia. }
  assert (M : List.length (filter (is_major what t') seen)
              <= List.length (filter (is_major what t) seen)).
  { apply filter_length_mono. intros r. rewrite !is_major_exceeds.
    apply exceeds_antitone, T. }
  unfold py_div in H, H'.
  destruct (List.length seen) as [|k] eqn:E; cbn [bind] in H, H'; [discriminate|].
  injection H as <- <- <-. injection H' as <- <- <-.
  split; [reflexivity|]. split; [exact M|].
  apply py_round2_mono.
  change (Z.pos (Pos.of_succ_nat k)) with (Z.of_nat (S k)).
  apply percentage_mono; [lia | exact M].
Qed.

Lemma freq_major_delays_route_cutoff_witness :
  3 = 3 /\ 1 <= 2 /\ ((3333 # 100) <= (6667 # 100))%Q.
Proof.
  exact (freq_major_delays_route_cutoff
           5 "A - C" sample 1%Q 3%Q true "delay"
           3 2 (6667 # 100)%Q 3 1 (3333 # 100)%Q
           ltac:(discriminate) eq_refl eq_refl).
Defined.
